(** * OvenMediaEngine Orchestrator: a shallow embedding of
    [projects/orchestrator/orchestrator.h] and the properties of its
    configuration model, name resolution and module fan-out. *)

From Stdlib Require Import ZArith NArith Ascii String Lia.
From stdpp Require Import base option list strings gmap sets countable.

Local Open Scope string_scope.

#[local] Set Warnings "-clear-no-such-hyp".

(** ** [ov::String] *)

(** [ov::String] is defined in ovlibrary, outside the header.  A string is a
    sequence of bytes; the operations below are the member functions the
    header calls, with the meaning their names and the comments at the call
    sites give them. *)
Module ov.

(** [s.Prepend(p)]: [s] becomes [p] followed by the old contents. *)
Definition Prepend (s p : string) : string := p +:+ s.

(** [s.Append(p)]: [s] becomes the old contents followed by [p]. *)
Definition Append (s p : string) : string := s +:+ p.

(** [s.CStr()] seen as a NUL-terminated C string: the bytes before the
    first NUL. *)
Fixpoint CStr (s : string) : string :=
  match s with
  | EmptyString => EmptyString
  | String c s' => if Ascii.eqb c zero then EmptyString else String c (CStr s')
  end.

(** Left-to-right scan of [Replace]: [skip] counts the bytes of an
    occurrence of [old_token] that is being stepped over. *)
Fixpoint Replace_scan (old_token new_token : string) (skip : nat) (s : string)
  : string :=
  match s with
  | EmptyString => EmptyString
  | String c s' =>
      match skip with
      | S k => Replace_scan old_token new_token k s'
      | O =>
          if String.prefix old_token s
          then new_token +:+
               Replace_scan old_token new_token (Nat.pred (String.length old_token)) s'
          else String c (Replace_scan old_token new_token 0 s')
      end
  end.

(** Modelled from the spec: [ov::String::Replace] is part of ovlibrary, not
    of the header; the specification reads it as "replaces [*] with [.*]",
    that is, every occurrence of the token, scanning from the left.  An
    empty token replaces nothing. *)
Definition Replace (s old_token new_token : string) : string :=
  match old_token with
  | EmptyString => s
  | _ => Replace_scan old_token new_token 0 s
  end.

End ov.

(** ** [std::regex] *)

(** The header builds a pattern string and hands it to the regular-expression
    engine of the C++ standard library.  The engine itself is an interface
    here: [regex_compile] is the constructor [std::regex(pattern)], which
    throws on an ill-formed pattern ([None]), and [regex_match] is
    [std::regex_match]. *)
Class StdRegex := {
  regex : Type;
  regex_compile : string -> option regex;
  regex_match : regex -> string -> bool
}.

(** The bracket expression [[[\\./+{}$^|]] of [Domain::UpdateRegex]: it matches
    one character out of <<[ \ . / + { } $ ^ |>>. *)
Definition special_characters (c : ascii) : bool :=
  bool_decide (c ∈ ["["; "\"; "."; "/"; "+"; "{"; "}"; "$"; "^"; "|"]%char).

(** [std::regex_replace(s, special_characters, R"(\$&)")]: every match of the
    bracket expression, a single character, is replaced by a backslash
    followed by the match ([$&]). *)
Fixpoint regex_replace_special (s : string) : string :=
  match s with
  | EmptyString => EmptyString
  | String c s' =>
      if special_characters c
      then String "\" (String c (regex_replace_special s'))
      else String c (regex_replace_special s')
  end.

(** The syntax characters of an ECMAScript pattern, the grammar [std::regex]
    uses by default: outside an escape each of them is an operator. *)
Definition regex_syntax_character (c : ascii) : bool :=
  bool_decide (c ∈ ["^"; "$"; "\"; "."; "*"; "+"; "?"; "("; ")"; "["; "]";
                    "{"; "}"; "|"]%char).

(** ** Configuration and runtime information *)

(** Modelled from the spec: the configuration classes ([cfg::OriginsOrigin],
    [cfg::Application]) are declared outside the header.  "Each Origin carries
    location, a Pass block with scheme and ordered url_list, and an embedded
    Application config." *)
Module cfg.

Record Url := { GetUrl : string }.

Record Pass := {
  GetScheme : string;
  GetUrlList : list Url
}.

Record Application := { GetName : string }.

Record OriginsOrigin := {
  GetLocation : string;
  GetPass : Pass;
  GetApplication : Application
}.

End cfg.

(** Modelled from the spec: [info::Host] and [info::Application] are declared
    outside the header.  A host descriptor has a name; an application has the
    identifier the Orchestrator allocated, its canonical name and its
    configuration. *)
Module info.

(** [info::application_id_t] and [info::stream_id_t] are 32-bit unsigned. *)
Definition application_id_t := N.
Definition stream_id_t := N.
Definition id_modulus : N := 2 ^ 32.

Record Host := { GetHostName : string }.

Record Application := {
  GetId : application_id_t;
  GetAppName : string;
  GetConfig : cfg.Application
}.

End info.

(** ** The Orchestrator *)

(** [Orchestrator::Result] *)
Inductive Result :=
| Failed      (* An error occurred *)
| Succeeded   (* Created successfully *)
| Exists      (* The item does exists *)
| NotExists.  (* The item does not exists *)

(** [Orchestrator::ItemState] *)
Inductive ItemState :=
| Unknown
| Applied      (* This item is applied to OriginMap *)
| NeedToCheck  (* Need to check if this item has changed *)
| NotChanged   (* This item is applied, and not changed *)
| New          (* This item is not applied, and will be applied *)
| Changed      (* This item is applied, but need to change some values *)
| Delete.      (* This item is applied, and will be deleted *)

#[global] Instance ItemState_eq_dec : EqDecision ItemState.
Proof. solve_decision. Defined.

(** Modelled from the spec: [OrchestratorModuleType] is declared in
    data_structure.h, outside the header: "kind ∈ {Provider, MediaRouter,
    Transcoder, Publisher, Unknown}". *)
Inductive OrchestratorModuleType :=
| UnknownModule
| Provider
| MediaRouter
| Transcoder
| Publisher.

#[global] Instance OrchestratorModuleType_eq_dec : EqDecision OrchestratorModuleType.
Proof. solve_decision. Defined.

Definition OrchestratorModuleType_code (t : OrchestratorModuleType) : nat :=
  match t with
  | UnknownModule => 0 | Provider => 1 | MediaRouter => 2
  | Transcoder => 3 | Publisher => 4
  end.

Definition OrchestratorModuleType_of_code (n : nat) : option OrchestratorModuleType :=
  match n with
  | 0 => Some UnknownModule | 1 => Some Provider | 2 => Some MediaRouter
  | 3 => Some Transcoder | 4 => Some Publisher | _ => None
  end.

#[global] Program Instance OrchestratorModuleType_countable :
  Countable OrchestratorModuleType :=
  inj_countable OrchestratorModuleType_code OrchestratorModuleType_of_code _.
Next Obligation. by intros []. Qed.

(** Modelled from the spec: [OrchestratorModuleInterface] is declared outside
    the header.  "Module interface consumed by the Orchestrator: Kind(),
    OnCreateApplication(app_info) -> bool, OnDeleteApplication(app_info) ->
    bool"; a module has reference identity ([module_ref] is the address the
    [shared_ptr] holds). *)
Record OrchestratorModuleInterface := {
  module_ref : nat;
  GetModuleType : OrchestratorModuleType;
  OnCreateApplication : info.Application -> bool;
  OnDeleteApplication : info.Application -> bool
}.

(** [Orchestrator::Module] *)
Record Module := {
  type : OrchestratorModuleType;
  module : OrchestratorModuleInterface
}.

(** [Orchestrator::Stream]; the two [shared_ptr]s are kept as the identity of
    the object they point to.  The constructor sets [is_valid]. *)
Record Stream := {
  stream_app_info : info.Application;
  provider : nat;
  provider_stream : nat;
  full_name : string;
  is_valid : bool
}.

Definition Stream_new (app_info : info.Application) (provider provider_stream : nat)
  (full_name : string) : Stream :=
  {| stream_app_info := app_info; provider := provider;
     provider_stream := provider_stream; full_name := full_name;
     is_valid := true |}.

(** [Orchestrator::Application]; the back pointer to the Orchestrator is the
    process-wide instance and is not stored. *)
Record Application := { app_info : info.Application }.

(** [Orchestrator::Origin] *)
Record Origin := {
  app_id : info.application_id_t;
  scheme : string;
  location : string;
  url_list : list string;
  origin_config : cfg.OriginsOrigin;
  origin_stream_map : gmap info.stream_id_t Stream;
  origin_state : ItemState
}.

(** One turn of the loop in the constructor of [Origin]: the local [url] is
    copied from the item and gets ["://"] and the scheme prepended;
    [url_list.push_back] receives [item.GetUrl()].  The result is the local
    and the list after the turn. *)
Definition Origin_push_url (scheme : string) (url_list : list string)
  (item : cfg.Url) : string * list string :=
  let url := cfg.GetUrl item in
  let url := ov.Prepend url "://" in
  let url := ov.Prepend url scheme in
  (url, (url_list ++ [cfg.GetUrl item])%list).

(** [Origin::Origin(const cfg::OriginsOrigin &)] *)
Definition Origin_new (config : cfg.OriginsOrigin) : Origin :=
  let scheme := cfg.GetScheme (cfg.GetPass config) in
  let location := cfg.GetLocation config in
  let url_list :=
    foldl (fun url_list item => snd (Origin_push_url scheme url_list item))
          [] (cfg.GetUrlList (cfg.GetPass config)) in
  {| app_id := 0%N; scheme := scheme; location := location;
     url_list := url_list; origin_config := config;
     origin_stream_map := ∅; origin_state := New |}.

(** [Origin::IsValid] *)
Definition Origin_IsValid (o : Origin) : bool :=
  bool_decide (origin_state o ≠ Unknown).

Definition Origin_set_state (state : ItemState) (o : Origin) : Origin :=
  {| app_id := app_id o; scheme := scheme o; location := location o;
     url_list := url_list o; origin_config := origin_config o;
     origin_stream_map := origin_stream_map o; origin_state := state |}.

Section WithRegex.
Context `{StdRegex}.

(** [Orchestrator::Domain].  [regex_for_domain] is [None] while it is the
    default-constructed [std::regex], which matches nothing. *)
Record Domain := {
  name : string;
  regex_for_domain : option regex;
  domain_stream_map : gmap info.stream_id_t Stream;
  domain_state : ItemState
}.

(** [Domain::IsValid] *)
Definition Domain_IsValid (d : Domain) : bool :=
  bool_decide (domain_state d ≠ Unknown).

Definition Domain_set_state (state : ItemState) (d : Domain) : Domain :=
  {| name := name d; regex_for_domain := regex_for_domain d;
     domain_stream_map := domain_stream_map d; domain_state := state |}.

(** The pattern [Domain::UpdateRegex] hands to [std::regex]. *)
Definition Domain_pattern (name : string) : string :=
  (* Escape special characters *)
  let escaped := regex_replace_special (ov.CStr name) in
  (* Change "*"/"?" to ".*"/".?" *)
  let escaped := ov.Replace escaped "*" ".*" in
  let escaped := ov.Replace escaped "?" ".?" in
  let escaped := ov.Prepend escaped "^" in
  let escaped := ov.Append escaped "$" in
  escaped.

(** [Domain::UpdateRegex]: the [catch] branch returns false and leaves
    [regex_for_domain] as it was. *)
Definition Domain_UpdateRegex (d : Domain) : bool * Domain :=
  match regex_compile (Domain_pattern (name d)) with
  | Some r =>
      (true, {| name := name d; regex_for_domain := Some r;
                domain_stream_map := domain_stream_map d;
                domain_state := domain_state d |})
  | None => (false, d)
  end.

(** [Domain::Domain(const ov::String &)]: the result of [UpdateRegex] is
    dropped. *)
Definition Domain_new (name : string) : Domain :=
  snd (Domain_UpdateRegex
         {| name := name; regex_for_domain := None;
            domain_stream_map := ∅; domain_state := New |}).

(** [std::regex_match(host, domain.regex_for_domain)], the test by which a
    domain is selected for a host name. *)
Definition Domain_matches (d : Domain) (host : string) : bool :=
  match regex_for_domain d with
  | Some r => regex_match r host
  | None => false
  end.

(** [Orchestrator::VirtualHost] *)
Record VirtualHost := {
  host_info : info.Host;
  vhost_name : string;
  domain_list : list Domain;
  origin_list : list Origin;
  app_map : gmap info.application_id_t Application;
  vhost_state : ItemState
}.

(** [VirtualHost::VirtualHost(const info::Host &)] *)
Definition VirtualHost_new (host_info : info.Host) : VirtualHost :=
  {| host_info := host_info; vhost_name := ""; domain_list := [];
     origin_list := []; app_map := ∅; vhost_state := New |}.

Definition VirtualHost_with (vh : VirtualHost) (state : ItemState)
  (domains : list Domain) (origins : list Origin) : VirtualHost :=
  {| host_info := host_info vh; vhost_name := vhost_name vh;
     domain_list := domains; origin_list := origins;
     app_map := app_map vh; vhost_state := state |}.

(** [VirtualHost::MarkAllAs(ItemState state)] *)
Definition VirtualHost_MarkAllAs (state : ItemState) (vh : VirtualHost) : VirtualHost :=
  VirtualHost_with vh state
    (Domain_set_state state <$> domain_list vh)
    (Origin_set_state state <$> origin_list vh).

(** The two [for] loops of [MarkAllAs(expected_old_state, state)] have the
    same body: an item whose state is not the expected one ends the call with
    false, the items before it already written; otherwise the item is
    written and the loop goes on.  The boolean is false when the loop
    returned. *)
Fixpoint mark_items {A : Type} (get : A -> ItemState) (set : ItemState -> A -> A)
  (expected_old_state state : ItemState) (items : list A) : bool * list A :=
  match items with
  | [] => (true, [])
  | item :: rest =>
      if decide (get item ≠ expected_old_state)
      then (false, item :: rest)
      else
        let '(finished, rest') := mark_items get set expected_old_state state rest in
        (finished, set state item :: rest')
  end.

(** [VirtualHost::MarkAllAs(ItemState expected_old_state, ItemState state)] *)
Definition VirtualHost_MarkAllAs_expected (expected_old_state state : ItemState)
  (vh : VirtualHost) : bool * VirtualHost :=
  if decide (vhost_state vh ≠ expected_old_state) then (false, vh)
  else
    let '(finished, domains) :=
      mark_items domain_state Domain_set_state expected_old_state state
                 (domain_list vh) in
    if negb finished
    then (false, VirtualHost_with vh state domains (origin_list vh))
    else
      let '(finished, origins) :=
        mark_items origin_state Origin_set_state expected_old_state state
                   (origin_list vh) in
      (finished, VirtualHost_with vh state domains origins).

(** The states of a virtual host in the order [MarkAllAs] visits them. *)
Definition VirtualHost_states (vh : VirtualHost) : list ItemState :=
  (vhost_state vh :: (domain_state <$> domain_list vh)
                  ++ (origin_state <$> origin_list vh))%list.

End WithRegex.

(** ** State of the process-wide instance *)

(** Member functions that touch the members of the Orchestrator are state
    transformers over its record. *)
Definition state (S A : Type) : Type := S -> A * S.

#[global] Instance state_ret {S} : MRet (state S) := fun _ a st => (a, st).
#[global] Instance state_bind {S} : MBind (state S) :=
  fun _ _ k c st => let '(a, st') := c st in k a st'.

Section WithRegex.
Context `{StdRegex}.

(** The data members of [Orchestrator].  The virtual hosts are owned through
    [shared_ptr]s held both by [_virtual_host_map] and by
    [_virtual_host_list]: the map is the store and the ordered list holds the
    keys.  The two mutexes have no counterpart in a sequential model. *)
Record Orchestrator := {
  _media_router : option nat;
  _last_application_id : info.application_id_t;
  _module_list : list Module;
  _module_map : gmap OrchestratorModuleType (list OrchestratorModuleInterface);
  _virtual_host_map : gmap string VirtualHost;
  _virtual_host_list : list string
}.

(** [Orchestrator() = default], with [info::MinApplicationId] as the first
    value of the counter. *)
Definition Orchestrator_new (MinApplicationId : info.application_id_t) : Orchestrator :=
  {| _media_router := None; _last_application_id := MinApplicationId;
     _module_list := []; _module_map := ∅;
     _virtual_host_map := ∅; _virtual_host_list := [] |}.

(** *** Observer callbacks of [Orchestrator::Application] *)

Section Observer.
(** [info::Stream] and [MediaPacket] are opaque to the Orchestrator. *)
Context {info_Stream MediaPacket : Type}.

(** A member function of [Application] can write the members of its object
    and, through the [orchestrator] pointer, those of the Orchestrator: it is
    a state transformer over the two. *)
Definition observer (A : Type) : Type := state (Application * Orchestrator) A.

(** [Application::OnSendVideoFrame] *)
Definition Application_OnSendVideoFrame
  (stream : info_Stream) (media_packet : MediaPacket) : observer bool :=
  (* Ignore packets *)
  mret true.

(** [Application::OnSendAudioFrame] *)
Definition Application_OnSendAudioFrame
  (stream : info_Stream) (media_packet : MediaPacket) : observer bool :=
  (* Ignore packets *)
  mret true.

(** [Application::OnSendFrame] *)
Definition Application_OnSendFrame
  (info : info_Stream) (packet : MediaPacket) : observer bool :=
  (* Ignore packets *)
  mret true.

End Observer.

(** *** Pull requests *)

Section PullStream.
(** The two overloads that take an offset are declared in the header and
    defined elsewhere; the inline overloads are stated over them.  [World] is
    what such a call can read and write: the Orchestrator and the modules it
    reaches. *)
Context {World : Type}.
Variable RequestPullStream_url_offset :
  string -> string -> string -> Z -> state World bool.
Variable RequestPullStream_offset :
  string -> string -> Z -> state World bool.

(** [RequestPullStream(vhost_app_name, stream_name, url)] *)
Definition RequestPullStream_url (vhost_app_name stream_name url : string)
  : state World bool :=
  RequestPullStream_url_offset vhost_app_name stream_name url 0%Z.

(** [RequestPullStream(vhost_app_name, stream_name)] *)
Definition RequestPullStream (vhost_app_name stream_name : string)
  : state World bool :=
  RequestPullStream_offset vhost_app_name stream_name 0%Z.

End PullStream.

(** *** Module registry *)

Definition Orchestrator_with_modules (st : Orchestrator) (modules : list Module)
  (by_type : gmap OrchestratorModuleType (list OrchestratorModuleInterface))
  : Orchestrator :=
  {| _media_router := _media_router st;
     _last_application_id := _last_application_id st;
     _module_list := modules; _module_map := by_type;
     _virtual_host_map := _virtual_host_map st;
     _virtual_host_list := _virtual_host_list st |}.

(** Two [shared_ptr]s are equal when they hold the same address. *)
Definition same_module (a b : OrchestratorModuleInterface) : bool :=
  Nat.eqb (module_ref a) (module_ref b).

(** The entry of [_module_list] that holds the module, if any. *)
Definition find_module (m : OrchestratorModuleInterface) (modules : list Module)
  : option Module :=
  List.find (fun entry => same_module (module entry) m) modules.

(** Modelled from the spec: the body of [RegisterModule] is not in the
    header.  "Register(module) -> bool: inserts if absent; rejects if the same
    reference is already present under a different kind.  Updates both the
    flat list (preserving insertion order, used for deterministic iteration)
    and the per-kind grouping."  The header adds: "If the module is registered
    or passed a different type from the previously registered type, false is
    returned". *)
Definition RegisterModule (m : OrchestratorModuleInterface) : state Orchestrator bool :=
  fun st =>
    match find_module m (_module_list st) with
    | Some _ => (false, st)
    | None =>
        let type := GetModuleType m in
        let list := default [] (_module_map st !! type) in
        (true,
         Orchestrator_with_modules st
           (_module_list st ++ [{| type := type; module := m |}])%list
           (<[type := (list ++ [m])%list]> (_module_map st)))
    end.

(** Modelled from the spec: the body of [UnregisterModule] is not in the
    header.  "Unregister(module) -> bool: removes from both indexes; returns
    false if not found." *)
Definition UnregisterModule (m : OrchestratorModuleInterface) : state Orchestrator bool :=
  fun st =>
    match find_module m (_module_list st) with
    | None => (false, st)
    | Some entry =>
        let keep := fun other => negb (same_module other m) in
        (true,
         Orchestrator_with_modules st
           (List.filter (fun e => keep (module e)) (_module_list st))
           (alter (List.filter keep) (type entry) (_module_map st)))
    end.

(** Modelled from the spec: "ModulesOfKind(kind) -> ordered sequence: used for
    fan-out." *)
Definition ModulesOfKind (kind : OrchestratorModuleType) (st : Orchestrator)
  : list OrchestratorModuleInterface :=
  default [] (_module_map st !! kind).

(** The reference an entry of [_module_list] stands for, and the references
    held by the list, in registration order. *)
Definition entry_ref (e : Module) : nat := module_ref (module e).

Definition registered_refs (st : Orchestrator) : list nat :=
  entry_ref <$> _module_list st.

(** The per-kind grouping agrees with the flat list: the modules of a kind
    are the entries of that kind, in registration order. *)
Definition registry_consistent (st : Orchestrator) : Prop :=
  forall kind,
    ModulesOfKind kind st
    = module <$> List.filter (fun e => bool_decide (type e = kind)) (_module_list st).

(** Each entry of the flat list records the kind its module reports. *)
Definition registry_typed (st : Orchestrator) : Prop :=
  Forall (fun e => type e = GetModuleType (module e)) (_module_list st).

(** A call to the registry, and a sequence of them run from a given state;
    the result collects what each call returned. *)
Inductive RegistryCall :=
| CallRegister (m : OrchestratorModuleInterface)
| CallUnregister (m : OrchestratorModuleInterface).

Definition run_registry_call (c : RegistryCall) : state Orchestrator bool :=
  match c with
  | CallRegister m => RegisterModule m
  | CallUnregister m => UnregisterModule m
  end.

Fixpoint run_registry_calls (calls : list RegistryCall)
  : state Orchestrator (list bool) :=
  match calls with
  | [] => mret []
  | c :: rest =>
      b ← run_registry_call c;
      bs ← run_registry_calls rest;
      mret (b :: bs)
  end.

(** The set the specification compares the registry with: what has been
    registered minus what has been unregistered since. *)
Definition registered_minus_unregistered (calls : list RegistryCall) : gset nat :=
  foldl (fun s c =>
           match c with
           | CallRegister m => s ∪ {[module_ref m]}
           | CallUnregister m => s ∖ {[module_ref m]}
           end) ∅ calls.

End WithRegex.

(** *** Name resolution *)

(** Modelled from the spec: the body of [ResolveApplicationName] is not in
    the header.  "Canonical application name: <vhost>#<app> (the # separator
    is part of the external contract).  ResolveApplicationName(vhost, app) =
    canonical form." *)
Definition ResolveApplicationName (vhost_name app_name : string) : string :=
  vhost_name +:+ "#" +:+ app_name.

(** The text before and after the first ['#'] of a string, if it has one. *)
Fixpoint split_at_first_hash (s : string) : option (string * string) :=
  match s with
  | EmptyString => None
  | String c s' =>
      if Ascii.eqb c "#" then Some (EmptyString, s')
      else
        match split_at_first_hash s' with
        | Some (before, after) => Some (String c before, after)
        | None => None
        end
  end.

(** Modelled from the spec: the body of [ParseVHostAppName] is not in the
    header.  "ParseVHostAppName(canonical) -> (vhost, app): splits on the
    first #; malformed input is an error."  The boolean result and the two
    output parameters of the declaration become an optional pair. *)
Definition ParseVHostAppName (vhost_app_name : string) : option (string * string) :=
  split_at_first_hash vhost_app_name.

(** A string that holds no ['#']. *)
Fixpoint hash_free (s : string) : bool :=
  match s with
  | EmptyString => true
  | String c s' => negb (Ascii.eqb c "#") && hash_free s'
  end.

(** *** Application coordinator *)

(** What the modules see of a fan-out: each callback the Orchestrator made,
    with the answer it got, and the registration of the observer. *)
Inductive ModuleCall :=
| CreateCall (ref : nat) (app : info.Application) (answer : bool)
| DeleteCall (ref : nat) (app : info.Application) (answer : bool)
| ObserverCall (app : info.Application).

(** The modules that hold an application after a sequence of calls: those
    that answered true to [OnCreateApplication] and were not sent
    [OnDeleteApplication] since. *)
Definition holders_step (id : info.application_id_t) (held : gset nat)
  (call : ModuleCall) : gset nat :=
  match call with
  | CreateCall ref app true =>
      if decide (info.GetId app = id) then held ∪ {[ref]} else held
  | DeleteCall ref app _ =>
      if decide (info.GetId app = id) then held ∖ {[ref]} else held
  | _ => held
  end.

Definition holders (id : info.application_id_t) (calls : list ModuleCall) : gset nat :=
  foldl (holders_step id) ∅ calls.

(** The create calls answered true by a list of modules. *)
Definition created_calls (modules : list OrchestratorModuleInterface)
  (app : info.Application) : list ModuleCall :=
  (fun m => CreateCall (module_ref m) app true) <$> modules.

(** The create fan-out: modules are called in order until one answers false;
    [created] collects the ones that answered true, the latest first. *)
Fixpoint create_fanout (modules : list OrchestratorModuleInterface)
  (app : info.Application) (created : list OrchestratorModuleInterface)
  : bool * list OrchestratorModuleInterface * list ModuleCall :=
  match modules with
  | [] => (true, created, [])
  | m :: rest =>
      if OnCreateApplication m app
      then
        let '(ok, created', calls) := create_fanout rest app (m :: created) in
        (ok, created', CreateCall (module_ref m) app true :: calls)
      else (false, created, [CreateCall (module_ref m) app false])
  end.

(** The rollback: [OnDeleteApplication] on each module of [created], which is
    the reverse of the order of creation. *)
Definition rollback (created : list OrchestratorModuleInterface)
  (app : info.Application) : list ModuleCall :=
  (fun m => DeleteCall (module_ref m) app (OnDeleteApplication m app)) <$> created.

Section WithRegex.
Context `{StdRegex}.

(** Modelled from the spec: "MediaRouter first, then all Providers, then
    Transcoder, then all Publishers", each kind in registration order. *)
Definition create_order (st : Orchestrator) : list OrchestratorModuleInterface :=
  (ModulesOfKind MediaRouter st ++ ModulesOfKind Provider st
   ++ ModulesOfKind Transcoder st ++ ModulesOfKind Publisher st)%list.

(** Modelled from the spec: the body of [GetNextAppId] is not in the header.
    "app_id assigned from a monotonically increasing counter starting at a
    configured minimum"; the counter is 32 bits wide. *)
Definition GetNextAppId : state Orchestrator info.application_id_t :=
  fun st =>
    (_last_application_id st,
     {| _media_router := _media_router st;
        _last_application_id := ((_last_application_id st + 1) mod info.id_modulus)%N;
        _module_list := _module_list st; _module_map := _module_map st;
        _virtual_host_map := _virtual_host_map st;
        _virtual_host_list := _virtual_host_list st |}).

Definition Orchestrator_put_vhost (st : Orchestrator) (key : string)
  (vh : VirtualHost) : Orchestrator :=
  {| _media_router := _media_router st;
     _last_application_id := _last_application_id st;
     _module_list := _module_list st; _module_map := _module_map st;
     _virtual_host_map := <[key := vh]> (_virtual_host_map st);
     _virtual_host_list := _virtual_host_list st |}.

Definition VirtualHost_put_app (vh : VirtualHost) (app : Application) : VirtualHost :=
  {| host_info := host_info vh; vhost_name := vhost_name vh;
     domain_list := domain_list vh; origin_list := origin_list vh;
     app_map := <[info.GetId (app_info app) := app]> (app_map vh);
     vhost_state := vhost_state vh |}.

(** Whether the virtual host has an application of that name. *)
Definition VirtualHost_has_app (vh : VirtualHost) (app_name : string) : bool :=
  existsb (fun entry => String.eqb (info.GetAppName (app_info entry.2)) app_name)
          (map_to_list (app_map vh)).

(** Modelled from the spec: the body of [CreateApplication] is not in the
    header.  "1. If the VirtualHost already contains an Application with the
    same name, returns Exists.  2. Allocate a fresh app_id; construct
    info::Application.  3. [...] call OnCreateApplication(app_info) on
    MediaRouter first, then all Providers, then Transcoder, then all
    Publishers.  4. If any module returns failure, the Coordinator calls
    OnDeleteApplication(app_info) on every module that successfully created
    (reverse order), then returns Failed.  No partial state is retained.
    5. On full success, registers an observer object with the MediaRouter
    [...] and inserts the Application into the owning VirtualHost's app_map.
    Returns Succeeded."  An unknown virtual host is a failure.  The calls made
    to the modules are returned next to the result. *)
Definition CreateApplication (vhost_info : info.Host) (app_config : cfg.Application)
  : state Orchestrator (Result * list ModuleCall) :=
  fun st =>
    let key := info.GetHostName vhost_info in
    match _virtual_host_map st !! key with
    | None => ((Failed, []), st)
    | Some vh =>
        let app_name := ResolveApplicationName key (cfg.GetName app_config) in
        if VirtualHost_has_app vh app_name then ((Exists, []), st)
        else
          let '(id, st) := GetNextAppId st in
          let app := {| info.GetId := id; info.GetAppName := app_name;
                        info.GetConfig := app_config |} in
          let '(ok, created, calls) := create_fanout (create_order st) app [] in
          if ok
          then
            ((Succeeded, (calls ++ [ObserverCall app])%list),
             Orchestrator_put_vhost st key
               (VirtualHost_put_app vh {| app_info := app |}))
          else ((Failed, (calls ++ rollback created app)%list), st)
    end.

(** The application [CreateApplication] is about to announce in a state. *)
Definition next_application (st : Orchestrator) (vhost_info : info.Host)
  (app_config : cfg.Application) : info.Application :=
  {| info.GetId := _last_application_id st;
     info.GetAppName :=
       ResolveApplicationName (info.GetHostName vhost_info) (cfg.GetName app_config);
     info.GetConfig := app_config |}.

End WithRegex.

(** The piece of the pattern one character of a domain name turns into: a
    character of the bracket expression is preceded by a backslash, [*] and
    [?] become [.*] and [.?], any other character is kept. *)
Definition pattern_of_char (c : ascii) : string :=
  if special_characters c then String "\" (String c EmptyString)
  else if Ascii.eqb c "*" then ".*"
  else if Ascii.eqb c "?" then ".?"
  else String c EmptyString.

Fixpoint pattern_of_chars (s : string) : string :=
  match s with
  | EmptyString => EmptyString
  | String c s' => pattern_of_char c +:+ pattern_of_chars s'
  end.

(** Reading a pattern back: a backslash announces the character it escapes,
    [.*] and [.?] stand for the wildcards, any other character for itself. *)
Fixpoint chars_of_pattern (p : string) : string :=
  match p with
  | EmptyString => EmptyString
  | String c rest =>
      match rest with
      | EmptyString => String c EmptyString
      | String c' rest' =>
          if Ascii.eqb c "\" then String c' (chars_of_pattern rest')
          else if Ascii.eqb c "." && (Ascii.eqb c' "*" || Ascii.eqb c' "?")
               then String c' (chars_of_pattern rest')
               else String c (chars_of_pattern rest)
      end
  end.

(** ** Alert messages *)

(** [mon::alrt::Message] of [projects/monitoring/alert/message.h]. *)
Module Message.

(** [enum class Code : uint16_t]: a code is its 16-bit value, which a cast can
    set to a number no enumerator has. *)
Definition Code := N.

Definition OK : Code := 0%N.
Definition INGRESS_BITRATE_LOW : Code := 1%N.
Definition INGRESS_BITRATE_HIGH : Code := 2%N.
Definition INGRESS_FRAMERATE_LOW : Code := 3%N.
Definition INGRESS_FRAMERATE_HIGH : Code := 4%N.
Definition INGRESS_WIDTH_SMALL : Code := 5%N.
Definition INGRESS_WIDTH_LARGE : Code := 6%N.
Definition INGRESS_HEIGHT_SMALL : Code := 7%N.
Definition INGRESS_HEIGHT_LARGE : Code := 8%N.
Definition INGRESS_SAMPLERATE_LOW : Code := 9%N.
Definition INGRESS_SAMPLERATE_HIGH : Code := 10%N.
Definition INGRESS_LONG_KEY_FRAME_INTERVAL : Code := 11%N.
Definition INGRESS_HAS_BFRAME : Code := 12%N.

(** The data members; [_code] is [Code::OK] by default. *)
Record t := {
  _code : Code;
  _description : string
}.

(** [Message::CreateMessage] *)
Definition CreateMessage (code : Code) (description : string) : t :=
  {| _code := code; _description := description |}.

(** [Message::GetCode] *)
Definition GetCode (message : t) : Code := _code message.

(** [Message::GetDescription] *)
Definition GetDescription (message : t) : string := _description message.

(** [Message::StringFromMessageCode]: the [switch] has a case for each
    enumerator; any other value leaves it and reaches [return "OK"]. *)
Definition StringFromMessageCode (message_code : Code) : string :=
  match message_code with
  | 0 => "OK"
  | 1 => "INGRESS_BITRATE_LOW"
  | 2 => "INGRESS_BITRATE_HIGH"
  | 3 => "INGRESS_FRAMERATE_LOW"
  | 4 => "INGRESS_FRAMERATE_HIGH"
  | 5 => "INGRESS_WIDTH_SMALL"
  | 6 => "INGRESS_WIDTH_LARGE"
  | 7 => "INGRESS_HEIGHT_SMALL"
  | 8 => "INGRESS_HEIGHT_LARGE"
  | 9 => "INGRESS_SAMPLERATE_LOW"
  | 10 => "INGRESS_SAMPLERATE_HIGH"
  | 11 => "INGRESS_LONG_KEY_FRAME_INTERVAL"
  | 12 => "INGRESS_HAS_BFRAME"
  | _ => "OK"
  end%N.

Section Description.
(** [DescriptionFromMessageCode] is a template over the type [T] of the two
    values; [ov::String::FormatString] is the [printf]-style formatter of
    ovlibrary, applied to a format and the values that follow it. *)
Context {T : Type}.
Variable FormatString : string -> list T -> string.

(** [Message::DescriptionFromMessageCode] *)
Definition DescriptionFromMessageCode (message_code : Code)
  (config_value measured_value : T) : string :=
  let config := config_value in
  let measured := measured_value in
  match message_code with
  | 0 => "The current status is good"
  | 1 => FormatString "The ingress stream's current bitrate (%d bps) is lower than the configured bitrate (%d bps)" [measured; config]
  | 2 => FormatString "The ingress stream's current bitrate (%d bps) is higher than the configured bitrate (%d bps)" [measured; config]
  | 3 => FormatString "The ingress stream's current framerate (%.2f fps) is lower than the configured framerate (%.2f fps)" [measured; config]
  | 4 => FormatString "The ingress stream's current framerate (%f fps) is higher than the configured framerate (%f fps)" [measured; config]
  | 5 => FormatString "The ingress stream's width (%d) is smaller than the configured width (%d)" [measured; config]
  | 6 => FormatString "The ingress stream's width (%d) is larger than the configured width (%d)" [measured; config]
  | 7 => FormatString "The ingress stream's height (%d) is smaller than the configured height (%d)" [measured; config]
  | 8 => FormatString "The ingress stream's height (%d) is larger than the configured height (%d)" [measured; config]
  | 9 => FormatString "The ingress stream's current samplerate (%d) is lower than the configured samplerate (%d)" [measured; config]
  | 10 => FormatString "The ingress stream's current samplerate (%d) is higher than the configured samplerate (%d)" [measured; config]
  | 11 => FormatString "The ingress stream's current keyframe interval (%.1f seconds) is too long. Please use a keyframe interval of %.1f seconds or less." [measured; config]
  | 12 => FormatString "There are B-Frames in the ingress stream." []
  | _ => "The current status is good"
  end%N.

End Description.

End Message.

(** ** Sample data *)

(** Whether the parentheses of a pattern are balanced; [depth] counts the
    open ones. *)
Fixpoint balanced (depth : nat) (s : string) : bool :=
  match s with
  | EmptyString => Nat.eqb depth 0
  | String c s' =>
      if Ascii.eqb c "(" then balanced (S depth) s'
      else if Ascii.eqb c ")" then
             match depth with
             | O => false
             | S k => balanced k s'
             end
           else balanced depth s'
  end.

(** *** An engine for the patterns of [UpdateRegex]

    The examples need [std::regex] on the patterns [Domain_pattern] builds,
    in the default ECMAScript grammar: the anchors [^] and [$], the dot (any
    character but a line terminator), a backslash before a punctuation
    character (that character itself), a parenthesised group, [*] and [?]
    after a character, a dot or a group, and every other character for
    itself.  A pattern that uses anything else is outside the engine, which
    refuses it; [Domain_pattern] builds none. *)
Inductive re :=
| Never                      (* matches nothing *)
| Eps                        (* the empty sequence *)
| Lit (c : ascii)            (* one given character *)
| Dot                        (* any character but a line terminator *)
| Bol                        (* ^ *)
| Eol                        (* $ *)
| Seq (r1 r2 : re)
| Alt (r1 r2 : re)
| Star (r : re).

Definition line_terminator (c : ascii) : bool :=
  Ascii.eqb c "010" || Ascii.eqb c "013".

(** Whether [r] matches the empty sequence, at the start and/or the end of
    the text. *)
Fixpoint nullable (at_start at_end : bool) (r : re) : bool :=
  match r with
  | Never | Lit _ | Dot => false
  | Eps | Star _ => true
  | Bol => at_start
  | Eol => at_end
  | Seq r1 r2 => nullable at_start at_end r1 && nullable at_start at_end r2
  | Alt r1 r2 => nullable at_start at_end r1 || nullable at_start at_end r2
  end.

(** What is left of [r] to match once the character [c] has been read;
    [at_start] tells whether [c] is the first character of the text. *)
Fixpoint derivative (at_start : bool) (c : ascii) (r : re) : re :=
  match r with
  | Never | Eps | Bol | Eol => Never
  | Lit c' => if Ascii.eqb c c' then Eps else Never
  | Dot => if line_terminator c then Never else Eps
  | Seq r1 r2 =>
      Alt (Seq (derivative at_start c r1) r2)
          (if nullable at_start false r1 then derivative at_start c r2 else Never)
  | Alt r1 r2 => Alt (derivative at_start c r1) (derivative at_start c r2)
  | Star r' => Seq (derivative at_start c r') (Star r')
  end.

(** [std::regex_match]: the whole text is matched. *)
Fixpoint matches_from (at_start : bool) (r : re) (text : string) : bool :=
  match text with
  | EmptyString => nullable at_start true r
  | String c text' => matches_from false (derivative at_start c r) text'
  end.

(** The characters a backslash may precede in the patterns of the engine. *)
Definition identity_escape (c : ascii) : bool :=
  regex_syntax_character c || special_characters c.

(** A parsed term with the mark of whether a quantifier may follow it, and
    the sequence a list of them (the latest first) stands for. *)
Definition term : Type := re * bool.

Definition sequence (terms : list term) : re :=
  foldl (fun acc t => Seq t.1 acc) Eps terms.

(** The parser reads the pattern from the left; [open] holds the sequences
    of the groups that are still open, [cur] the terms of the innermost one.
    A closing parenthesis without an opening one, a group left open, a
    quantifier with nothing to repeat, and a construct outside the engine
    end it without a result. *)
Fixpoint parse (open : list (list term)) (cur : list term) (p : string) : option re :=
  match p with
  | EmptyString =>
      match open with
      | [] => Some (sequence cur)
      | _ => None
      end
  | String c p' =>
      if Ascii.eqb c "(" then parse (cur :: open) [] p'
      else if Ascii.eqb c ")" then
        match open with
        | [] => None
        | outer :: open' => parse open' ((sequence cur, true) :: outer) p'
        end
      else if Ascii.eqb c "*" then
        match cur with
        | (r, true) :: cur' => parse open ((Star r, false) :: cur') p'
        | _ => None
        end
      else if Ascii.eqb c "?" then
        match cur with
        | (r, true) :: cur' => parse open ((Alt r Eps, false) :: cur') p'
        | _ => None
        end
      else if Ascii.eqb c "\" then
        match p' with
        | EmptyString => None
        | String c' p'' =>
            if identity_escape c' then parse open ((Lit c', true) :: cur) p''
            else None
        end
      else if Ascii.eqb c "." then parse open ((Dot, true) :: cur) p'
      else if Ascii.eqb c "^" then parse open ((Bol, false) :: cur) p'
      else if Ascii.eqb c "$" then parse open ((Eol, false) :: cur) p'
      else if Ascii.eqb c "+" || Ascii.eqb c "|" || Ascii.eqb c "["
              || Ascii.eqb c "{" || Ascii.eqb c "}"
           then None
           else parse open ((Lit c, true) :: cur) p'
  end.

Definition literal_engine : StdRegex :=
  {| regex := re;
     regex_compile := fun pattern => parse [] [] pattern;
     regex_match := fun r text => matches_from true r text |}.

(** The origin of scenario S1. *)
Definition sample_origin_config : cfg.OriginsOrigin :=
  {| cfg.GetLocation := "/live";
     cfg.GetPass := {| cfg.GetScheme := "rtmp";
                       cfg.GetUrlList := [ {| cfg.GetUrl := "src/app" |};
                                           {| cfg.GetUrl := "backup/app" |} ] |};
     cfg.GetApplication := {| cfg.GetName := "live" |} |}.

(** The modules of scenario S3: a MediaRouter and two Publishers, the second
    of which refuses to create applications. *)
Definition sample_module (ref : nat) (kind : OrchestratorModuleType) (accepts : bool)
  : OrchestratorModuleInterface :=
  {| module_ref := ref; GetModuleType := kind;
     OnCreateApplication := fun _ => accepts;
     OnDeleteApplication := fun _ => true |}.

Definition sample_router := sample_module 1 MediaRouter true.
Definition sample_publisher := sample_module 2 Publisher true.
Definition sample_refusing_publisher := sample_module 3 Publisher false.

Definition sample_host : info.Host := {| info.GetHostName := "h1" |}.

Definition sample_orchestrator : @Orchestrator literal_engine :=
  let st := Orchestrator_new 1%N in
  let st := snd (RegisterModule sample_router st) in
  let st := snd (RegisterModule sample_publisher st) in
  let st := snd (RegisterModule sample_refusing_publisher st) in
  Orchestrator_put_vhost st "h1" (VirtualHost_new sample_host).

(** A virtual host whose second domain is still to be checked. *)
Definition sample_vhost : @VirtualHost literal_engine :=
  {| host_info := sample_host; vhost_name := "h1";
     domain_list :=
       [ Domain_set_state NeedToCheck (Domain_new "a.example.com");
         Domain_set_state Applied (Domain_new "b.example.com") ];
     origin_list := [ Origin_set_state NeedToCheck (Origin_new sample_origin_config) ];
     app_map := ∅; vhost_state := NeedToCheck |}.

(** A domain that was built for the name ["a"] and then renamed to ["a("]. *)
Definition sample_renamed_domain : @Domain literal_engine :=
  @Build_Domain literal_engine "a("
    (@regex_for_domain literal_engine (Domain_new "a")) ∅ Applied.

(** * Properties *)

(** ** Strings *)

Lemma string_app_cons (c : ascii) (a b : string) :
  String c a +:+ b = String c (a +:+ b).
Proof. reflexivity. Qed.

Lemma string_app_nil_l (a : string) : "" +:+ a = a.
Proof. reflexivity. Qed.

(** [String.append] does not unfold under [simpl]; its two equations are
    applied by rewriting. *)
Ltac string_app := repeat (rewrite string_app_cons || rewrite string_app_nil_l).

Lemma string_app_length (a b : string) :
  String.length (a +:+ b) = String.length a + String.length b.
Proof.
  induction a as [|c a IH]; [done |].
  rewrite string_app_cons. simpl. by rewrite IH.
Qed.

Lemma string_app_assoc (a b c : string) : (a +:+ b) +:+ c = a +:+ (b +:+ c).
Proof.
  induction a as [|x a IH]; [done |].
  rewrite !string_app_cons. by rewrite IH.
Qed.

Lemma string_app_nil_r (a : string) : a +:+ "" = a.
Proof.
  induction a as [|x a IH]; [done |].
  rewrite string_app_cons. by rewrite IH.
Qed.

(** ** Origins *)

Lemma Origin_push_url_fold (scheme : string) (items : list cfg.Url) (acc : list string) :
  foldl (fun url_list item => snd (Origin_push_url scheme url_list item)) acc items
  = (acc ++ (cfg.GetUrl <$> items))%list.
Proof.
  revert acc. induction items as [|item items IH]; intros acc; simpl.
  - by rewrite app_nil_r.
  - rewrite IH. by rewrite <- List.app_assoc.
Qed.

(** C2: the constructor of [Origin] stores in [url_list] the URLs of the
    configuration's Pass block, in order and unchanged.  The scheme-prefixed
    text is built in the local [url] only: in each turn of the loop the local
    is ["<scheme>://<url>"], the entry pushed is the URL of the item, and the
    two differ. *)
Theorem Origin_new_stores_raw_urls (config : cfg.OriginsOrigin) :
  url_list (Origin_new config) = cfg.GetUrl <$> cfg.GetUrlList (cfg.GetPass config)
  /\ forall (acc : list string) (item : cfg.Url),
       let scheme := cfg.GetScheme (cfg.GetPass config) in
       Origin_push_url scheme acc item
       = (scheme +:+ "://" +:+ cfg.GetUrl item, (acc ++ [cfg.GetUrl item])%list)
       /\ scheme +:+ "://" +:+ cfg.GetUrl item <> cfg.GetUrl item.
Proof.
  split.
  - unfold Origin_new; cbn [url_list]. by rewrite Origin_push_url_fold.
  - intros acc item scheme. split; [reflexivity |].
    intros Heq. apply (f_equal String.length) in Heq.
    rewrite !string_app_length in Heq. simpl in Heq. lia.
Qed.

(** The origin of scenario S1 keeps its two URLs as configured. *)
Example Origin_new_sample :
  url_list (Origin_new sample_origin_config) = ["src/app"; "backup/app"]
  /\ scheme (Origin_new sample_origin_config) = "rtmp"
  /\ location (Origin_new sample_origin_config) = "/live".
Proof. by vm_compute. Qed.

(** ** Construction *)

Section Construction.
Context `{StdRegex}.

Lemma Domain_new_state (name : string) : domain_state (Domain_new name) = New.
Proof.
  unfold Domain_new, Domain_UpdateRegex; simpl.
  by destruct (regex_compile (Domain_pattern name)).
Qed.

Lemma Domain_new_name (n : string) : name (Domain_new n) = n.
Proof.
  unfold Domain_new, Domain_UpdateRegex; simpl.
  by destruct (regex_compile (Domain_pattern n)).
Qed.

(** C10: an [Origin], a [Domain] and a [VirtualHost] leave their constructor
    in state [New]; as [New] is not [Unknown], [IsValid] is true for a fresh
    [Origin] and a fresh [Domain]. *)
Theorem constructed_as_New (config : cfg.OriginsOrigin) (name : string)
  (host : info.Host) :
  origin_state (Origin_new config) = New
  /\ domain_state (Domain_new name) = New
  /\ vhost_state (VirtualHost_new host) = New
  /\ New <> Unknown
  /\ Origin_IsValid (Origin_new config) = true
  /\ Domain_IsValid (Domain_new name) = true.
Proof.
  repeat split; try done.
  - apply Domain_new_state.
  - unfold Domain_IsValid. by rewrite Domain_new_state.
Qed.

End Construction.

(** ** Frames and pull requests *)

(** C8: [OnSendVideoFrame], [OnSendAudioFrame] and [OnSendFrame] answer true
    and hand back the [Application] and the Orchestrator they were given, for
    every stream and packet. *)
Theorem frames_are_ignored `{StdRegex} {info_Stream MediaPacket : Type}
  (stream : info_Stream) (packet : MediaPacket)
  (this : Application) (orchestrator : Orchestrator) :
  Application_OnSendVideoFrame stream packet (this, orchestrator)
  = (true, (this, orchestrator))
  /\ Application_OnSendAudioFrame stream packet (this, orchestrator)
     = (true, (this, orchestrator))
  /\ Application_OnSendFrame stream packet (this, orchestrator)
     = (true, (this, orchestrator)).
Proof. by repeat split. Qed.

(** C7: each overload of [RequestPullStream] without an offset is the
    overload with an offset, called with offset 0: the same state
    transformer, hence the same answer and the same effects from every
    state, whatever the two overloads with an offset do. *)
Theorem RequestPullStream_default_offset {World : Type}
  (with_url : string -> string -> string -> Z -> state World bool)
  (by_location : string -> string -> Z -> state World bool)
  (vhost_app_name stream_name url : string) :
  RequestPullStream_url with_url vhost_app_name stream_name url
  = with_url vhost_app_name stream_name url 0%Z
  /\ RequestPullStream by_location vhost_app_name stream_name
     = by_location vhost_app_name stream_name 0%Z
  /\ forall w : World,
       RequestPullStream_url with_url vhost_app_name stream_name url w
       = with_url vhost_app_name stream_name url 0%Z w
       /\ RequestPullStream by_location vhost_app_name stream_name w
          = by_location vhost_app_name stream_name 0%Z w.
Proof. by repeat split. Qed.

(** ** Marking a virtual host *)

Section MarkItems.
Context {A : Type} (get : A -> ItemState) (set : ItemState -> A -> A).
Hypothesis get_set : forall s a, get (set s a) = s.

(** What one loop of [MarkAllAs] does: either every item has the expected
    state, the loop finishes and every item is written; or it returns at the
    first item [x] that has another state, the items before [x] written, [x]
    and the items after it as they were. *)
Lemma mark_items_spec (expected state : ItemState) (items : list A) :
  (Forall (fun a => get a = expected) items
   /\ mark_items get set expected state items = (true, set state <$> items))
  \/ (exists before x after,
        items = (before ++ x :: after)%list
        /\ Forall (fun a => get a = expected) before
        /\ get x <> expected
        /\ mark_items get set expected state items
           = (false, ((set state <$> before) ++ x :: after)%list)).
Proof.
  induction items as [|item rest IH]; simpl.
  - left. by split.
  - case_decide as Hget.
    + right. exists [], item, rest. by repeat split.
    + try apply dec_stable in Hget.
      destruct IH as [[Hall ->] | (before & x & after & -> & Hall & Hx & ->)].
      * left. split; [by constructor | done].
      * right. exists (item :: before), x, after. repeat split; try done.
        by constructor.
Qed.

Lemma states_after_set (state : ItemState) (items : list A) :
  get <$> (set state <$> items) = replicate (length items) state.
Proof.
  induction items as [|item rest IH]; [done |].
  rewrite !fmap_cons, get_set, IH. done.
Qed.

End MarkItems.

Section MarkAllAs.
Context `{StdRegex}.

Lemma Domain_get_set (s : ItemState) (d : Domain) :
  domain_state (Domain_set_state s d) = s.
Proof. reflexivity. Qed.

Lemma Origin_get_set (s : ItemState) (o : Origin) :
  origin_state (Origin_set_state s o) = s.
Proof. reflexivity. Qed.

Lemma Forall_states_split (expected : ItemState) (vh : VirtualHost) :
  Forall (fun s => s = expected) (VirtualHost_states vh)
  <-> vhost_state vh = expected
      /\ Forall (fun d => domain_state d = expected) (domain_list vh)
      /\ Forall (fun o => origin_state o = expected) (origin_list vh).
Proof.
  unfold VirtualHost_states.
  rewrite Forall_cons_iff, Forall_app, !Forall_fmap. done.
Qed.

(** A prefix of expected states followed by another state is not a sequence
    of expected states. *)
Lemma Forall_broken (expected x : ItemState) (before after : list ItemState) :
  x <> expected ->
  ~ Forall (fun s => s = expected) (before ++ x :: after)%list.
Proof.
  intros Hx Hall. apply Forall_app in Hall as [_ Hall].
  by apply Forall_cons_iff in Hall as [? _].
Qed.

(** The outcome of [MarkAllAs(expected_old_state, state)], by the place where
    it returns: at the end, with every state expected before and the whole
    tree written as by [MarkAllAs(state)]; or at the first state [x] of the
    visiting order that is not the expected one, the states before [x]
    written and the rest untouched. *)
Lemma MarkAllAs_expected_outcome (expected state : ItemState) (vh : VirtualHost) :
  (Forall (fun s => s = expected) (VirtualHost_states vh)
   /\ VirtualHost_MarkAllAs_expected expected state vh
      = (true, VirtualHost_MarkAllAs state vh))
  \/ (exists before x after,
        VirtualHost_states vh = (before ++ x :: after)%list
        /\ Forall (fun s => s = expected) before
        /\ x <> expected
        /\ (VirtualHost_MarkAllAs_expected expected state vh).1 = false
        /\ VirtualHost_states (VirtualHost_MarkAllAs_expected expected state vh).2
           = (replicate (length before) state ++ x :: after)%list).
Proof.
  unfold VirtualHost_MarkAllAs_expected.
  case_decide as Hvh.
  { right. exists [], (vhost_state vh),
      ((domain_state <$> domain_list vh) ++ (origin_state <$> origin_list vh))%list.
    by repeat split. }
  try apply dec_stable in Hvh.
  destruct (mark_items_spec domain_state Domain_set_state expected state
              (domain_list vh))
    as [[Hd ->] | (db & dx & da & Hdl & Hdb & Hdx & ->)]; simpl.
  - destruct (mark_items_spec origin_state Origin_set_state expected state
                (origin_list vh))
      as [[Ho ->] | (ob & ox & oa & Hol & Hob & Hox & ->)].
    + left. split; [by apply Forall_states_split | done].
    + right.
      exists (vhost_state vh :: (domain_state <$> domain_list vh)
              ++ (origin_state <$> ob))%list, (origin_state ox), (origin_state <$> oa).
      unfold VirtualHost_states; simpl. rewrite Hol. repeat split.
      * rewrite fmap_app, fmap_cons, <- List.app_assoc. done.
      * constructor; [done |]. apply Forall_app. by rewrite !Forall_fmap.
      * done.
      * rewrite fmap_app, fmap_cons.
        rewrite !(states_after_set _ _ Domain_get_set).
        rewrite !(states_after_set _ _ Origin_get_set).
        rewrite length_app, !length_fmap, replicate_add, <- List.app_assoc. done.
  - right.
    exists (vhost_state vh :: (domain_state <$> db))%list, (domain_state dx),
      ((domain_state <$> da) ++ (origin_state <$> origin_list vh))%list.
    unfold VirtualHost_states; simpl. rewrite Hdl. repeat split.
    + rewrite fmap_app, fmap_cons, <- List.app_assoc. done.
    + constructor; [done |]. by rewrite Forall_fmap.
    + done.
    + rewrite fmap_app, fmap_cons.
      rewrite !(states_after_set _ _ Domain_get_set).
      rewrite length_fmap, <- List.app_assoc. done.
Qed.

Lemma MarkAllAs_states (state : ItemState) (vh : VirtualHost) :
  VirtualHost_states (VirtualHost_MarkAllAs state vh)
  = replicate (length (VirtualHost_states vh)) state.
Proof.
  unfold VirtualHost_states, VirtualHost_MarkAllAs; simpl.
  rewrite !(states_after_set _ _ Domain_get_set).
  rewrite !(states_after_set _ _ Origin_get_set).
  by rewrite length_app, !length_fmap, replicate_add.
Qed.

(** C9: [MarkAllAs(expected_old_state, state)] returns true exactly when the
    state of the virtual host, of each of its domains and of each of its
    origins is the expected one.  When it returns true all of them are
    [state] afterwards.  When it returns false, it stopped at the first item
    of the visiting order (the host, the domains, the origins) whose state
    differs: the items before it have been set to [state], that item and the
    ones after it are as they were; so once the check of the host itself has
    passed and [state] differs from the expected state, a false return has
    changed the tree. *)
Theorem MarkAllAs_expected_spec (expected state : ItemState) (vh : VirtualHost) :
  let result := VirtualHost_MarkAllAs_expected expected state vh in
  (result.1 = true
   <-> vhost_state vh = expected
       /\ Forall (fun d => domain_state d = expected) (domain_list vh)
       /\ Forall (fun o => origin_state o = expected) (origin_list vh))
  /\ (result.1 = true ->
      vhost_state result.2 = state
      /\ Forall (fun d => domain_state d = state) (domain_list result.2)
      /\ Forall (fun o => origin_state o = state) (origin_list result.2))
  /\ (result.1 = false ->
      exists before x after,
        VirtualHost_states vh = (before ++ x :: after)%list
        /\ Forall (fun s => s = expected) before
        /\ x <> expected
        /\ VirtualHost_states result.2
           = (replicate (length before) state ++ x :: after)%list)
  /\ (result.1 = false -> vhost_state vh = expected -> state <> expected ->
      result.2 <> vh).
Proof.
  intros result. subst result.
  destruct (MarkAllAs_expected_outcome expected state vh)
    as [[Hall Heq] | (before & x & after & Hst & Hbefore & Hx & Hfalse & Hres)].
  - rewrite Heq; simpl. repeat split; try done.
    + by apply Forall_states_split in Hall as (? & ? & ?).
    + by apply Forall_states_split in Hall as (? & ? & ?).
    + by apply Forall_states_split in Hall as (? & ? & ?).
    + apply Forall_fmap, Forall_forall. done.
    + apply Forall_fmap, Forall_forall. done.
  - rewrite Hfalse. repeat split; try done.
    + intros Hall. apply Forall_states_split in Hall.
      rewrite Hst in Hall. by apply Forall_broken in Hall.
    + exists before, x, after. done.
    + intros _ Hvh Hne Hsame. rewrite Hsame in Hres. rewrite Hst in Hres.
      destruct before as [|b before]; simpl in Hres.
      * unfold VirtualHost_states in Hst. simpl in Hst. congruence.
      * inversion Hres; subst b. by apply Forall_cons_iff in Hbefore as [? _].
Qed.

End MarkAllAs.

(** A false return that has changed the tree: the host and its first domain
    are to be checked, the second domain is not; the call stops there, with
    the host and the first domain already marked. *)
Example MarkAllAs_expected_partial :
  let result := VirtualHost_MarkAllAs_expected NeedToCheck NotChanged sample_vhost in
  result.1 = false
  /\ VirtualHost_states sample_vhost = [NeedToCheck; NeedToCheck; Applied; NeedToCheck]
  /\ VirtualHost_states result.2 = [NotChanged; NotChanged; Applied; NeedToCheck].
Proof. vm_compute. done. Qed.

(** ** Domain patterns *)

(** [Replace] with a token of one character works character by character. *)
Lemma Replace_scan_cons (t c : ascii) (new_token s : string) :
  ov.Replace_scan (String t "") new_token 0 (String c s)
  = (if Ascii.eqb c t then new_token else String c "")
      +:+ ov.Replace_scan (String t "") new_token 0 s.
Proof.
  simpl. destruct (ascii_dec t c) as [-> | Hne].
  - rewrite Ascii.eqb_refl. by destruct s.
  - destruct (Ascii.eqb_spec c t) as [-> | _]; [done |]. reflexivity.
Qed.

#[local] Arguments ov.Replace_scan : simpl never.

Lemma Replace_char (t : ascii) (new_token s : string) :
  ov.Replace s (String t "") new_token = ov.Replace_scan (String t "") new_token 0 s.
Proof. reflexivity. Qed.

Lemma special_not_wildcard (c : ascii) :
  special_characters c = true ->
  Ascii.eqb c "*" = false /\ Ascii.eqb c "?" = false.
Proof.
  unfold special_characters. intros Hin%bool_decide_eq_true.
  repeat (apply elem_of_cons in Hin as [-> | Hin]; [by split |]).
  by apply elem_of_nil in Hin.
Qed.

(** The two replacements after the escaping amount to one pass over the
    name. *)
Lemma wildcards_after_escape (s : string) :
  ov.Replace (ov.Replace (regex_replace_special s) "*" ".*") "?" ".?"
  = pattern_of_chars s.
Proof.
  rewrite !Replace_char.
  induction s as [|c s IH]; [done |].
  simpl regex_replace_special. simpl pattern_of_chars. unfold pattern_of_char.
  destruct (special_characters c) eqn:Hsp.
  - destruct (special_not_wildcard c Hsp) as [Hstar Hq].
    rewrite !Replace_scan_cons, Hstar. simpl. string_app.
    rewrite !Replace_scan_cons, Hq. simpl. string_app.
    by rewrite IH.
  - rewrite Replace_scan_cons.
    destruct (Ascii.eqb c "*") eqn:Hstar.
    + string_app. rewrite !Replace_scan_cons. simpl. string_app.
      by rewrite IH.
    + string_app. rewrite Replace_scan_cons.
      destruct (Ascii.eqb c "?") eqn:Hq; string_app; by rewrite IH.
Qed.

(** The pattern of a domain name, character by character. *)
Lemma Domain_pattern_by_char (name : string) :
  Domain_pattern name = "^" +:+ pattern_of_chars (ov.CStr name) +:+ "$".
Proof.
  unfold Domain_pattern, ov.Prepend, ov.Append.
  rewrite wildcards_after_escape. by rewrite string_app_assoc.
Qed.

(** The domain of scenario S1. *)
Example Domain_pattern_sample :
  Domain_pattern "*.example.com" = "^.*\.example\.com$".
Proof. by vm_compute. Qed.

(** Every character the pattern keeps as it is, wildcards apart, is either no
    syntax character of the pattern language or one of the three that the
    bracket expression leaves out. *)
Lemma unescaped_syntax_characters (c : ascii) :
  pattern_of_char c = String c "" ->
  regex_syntax_character c = true ->
  c = "("%char \/ c = ")"%char \/ c = "]"%char.
Proof.
  unfold pattern_of_char, regex_syntax_character.
  intros Hpat Hin%bool_decide_eq_true.
  repeat (apply elem_of_cons in Hin as [-> | Hin];
          [first [ by auto | by vm_compute in Hpat ] |]).
  by apply elem_of_nil in Hin.
Qed.

(** C3, on a name with a parenthesis: the parenthesis is a syntax character of
    the pattern language and is not in the bracket expression, so it reaches
    the pattern unescaped.  The pattern of ["(a)"] is ["^(a)$"], a group
    around [a]; the pattern of ["a("] is ["^a($"], whose parenthesis is never
    closed: no [std::regex] is built from it, and the domain named ["a("]
    does not match the host name ["a("]. *)
Theorem Domain_pattern_keeps_parentheses :
  regex_syntax_character "(" = true
  /\ special_characters "(" = false
  /\ pattern_of_char "(" = "("
  /\ Domain_pattern "(a)" = "^(a)$"
  /\ Domain_pattern "a(" = "^a($"
  /\ balanced 0 (Domain_pattern "a(") = false
  /\ @Domain_matches literal_engine (Domain_new "a(") "a(" = false.
Proof. vm_compute. done. Qed.

Section InvalidPattern.
Context `{StdRegex}.

(** C6: when the pattern of a domain name is not a well-formed regular
    expression, [UpdateRegex] returns false and leaves the domain as it is
    (nothing propagates: the call has a result); the constructor still yields
    a [Domain], with that name and in state [New], whose matcher is the
    default-constructed one; and that domain matches no host name. *)
Theorem Domain_invalid_pattern (n : string) :
  regex_compile (Domain_pattern n) = None ->
  (forall d : Domain, name d = n -> Domain_UpdateRegex d = (false, d))
  /\ Domain_new n = {| name := n; regex_for_domain := None;
                       domain_stream_map := ∅; domain_state := New |}
  /\ Domain_IsValid (Domain_new n) = true
  /\ forall host : string, Domain_matches (Domain_new n) host = false.
Proof.
  intros Hbad.
  assert (Hnew : Domain_new n = {| name := n; regex_for_domain := None;
                                   domain_stream_map := ∅; domain_state := New |}).
  { unfold Domain_new, Domain_UpdateRegex; simpl. by rewrite Hbad. }
  repeat split.
  - intros d <-. unfold Domain_UpdateRegex. by rewrite Hbad.
  - done.
  - by rewrite Hnew.
  - intros host. by rewrite Hnew.
Qed.

End InvalidPattern.

Lemma Domain_invalid_pattern_witness :
  @regex_compile literal_engine (Domain_pattern "a(") = None
  /\ forall host : string,
       @Domain_matches literal_engine (Domain_new "a(") host = false.
Proof.
  split; [reflexivity |].
  apply (@Domain_invalid_pattern literal_engine "a("). reflexivity.
Defined.

(** ** Application names *)

Lemma split_at_first_hash_app (v a : string) :
  hash_free v = true ->
  split_at_first_hash (v +:+ "#" +:+ a) = Some (v, a).
Proof.
  induction v as [|c v IH]; intros Hfree; [done |].
  simpl in Hfree. apply andb_true_iff in Hfree as [Hc Hv].
  rewrite string_app_cons. simpl.
  apply negb_true_iff in Hc. rewrite Hc. by rewrite (IH Hv).
Qed.

(** The split is at the first ['#']: what comes before it has none. *)
Lemma split_at_first_hash_inv (s v a : string) :
  split_at_first_hash s = Some (v, a) ->
  s = v +:+ "#" +:+ a /\ hash_free v = true.
Proof.
  revert v. induction s as [|c s IH]; intros v Hsplit; [done |].
  simpl in Hsplit. destruct (Ascii.eqb_spec c "#") as [-> | Hne].
  - by inversion Hsplit.
  - destruct (split_at_first_hash s) as [[before after] |]; [| done].
    inversion Hsplit; subst. destruct (IH before eq_refl) as [-> Hfree].
    split; [done |]. simpl. rewrite Hfree.
    by destruct (Ascii.eqb_spec c "#").
Qed.

Example ParseVHostAppName_samples :
  ParseVHostAppName "h1#live" = Some ("h1", "live")
  /\ ParseVHostAppName "h1#live#x" = Some ("h1", "live#x")
  /\ ParseVHostAppName "h1" = None.
Proof. by vm_compute. Qed.

(** C5: for a virtual host name and an application name without ['#'],
    parsing the canonical name [<vhost>#<app>] that
    [ResolveApplicationName] builds gives the two names back. *)
Theorem ParseVHostAppName_ResolveApplicationName (v a : string) :
  hash_free v = true ->
  hash_free a = true ->
  ResolveApplicationName v a = v +:+ "#" +:+ a
  /\ ParseVHostAppName (ResolveApplicationName v a) = Some (v, a).
Proof.
  intros Hv _. split; [reflexivity |].
  unfold ParseVHostAppName, ResolveApplicationName.
  by apply split_at_first_hash_app.
Qed.

Lemma ParseVHostAppName_ResolveApplicationName_witness :
  ParseVHostAppName (ResolveApplicationName "h1" "live") = Some ("h1", "live").
Proof.
  apply (ParseVHostAppName_ResolveApplicationName "h1" "live"); reflexivity.
Defined.

(** ** Module registry *)

Section Registry.
Context `{StdRegex}.

Lemma find_module_None (m : OrchestratorModuleInterface) (modules : list Module) :
  find_module m modules = None <-> module_ref m ∉ entry_ref <$> modules.
Proof.
  unfold find_module, same_module.
  induction modules as [|e modules IH].
  - split; [intros _ Hin; by apply elem_of_nil in Hin | done].
  - rewrite fmap_cons, not_elem_of_cons. simpl.
    destruct (Nat.eqb_spec (module_ref (module e)) (module_ref m)) as [Heq | Hne].
    + split; [done | intros [Hne _]; by rewrite <- Heq in Hne].
    + rewrite IH. split; [| by intros [_ ?]].
      intros Hout. split; [| done]. intros Heq. apply Hne. by rewrite Heq.
Qed.

Lemma find_module_Some (m : OrchestratorModuleInterface) (modules : list Module)
  (e : Module) :
  find_module m modules = Some e -> module_ref m ∈ entry_ref <$> modules.
Proof.
  intros Hfind. destruct (decide (module_ref m ∈ entry_ref <$> modules)) as [|Hnot];
    [done |].
  apply find_module_None in Hnot. congruence.
Qed.

(** What is left of the references when the entries of one module go. *)
Lemma refs_after_removal (r : nat) (modules : list Module) :
  entry_ref <$> List.filter (fun e => negb (Nat.eqb (entry_ref e) r)) modules
  = List.filter (fun x => negb (Nat.eqb x r)) (entry_ref <$> modules).
Proof.
  induction modules as [|e modules IH]; [done |].
  rewrite fmap_cons. cbn [List.filter].
  destruct (Nat.eqb (entry_ref e) r); cbn [negb]; rewrite ?fmap_cons, IH; done.
Qed.

Lemma elem_of_removal (r x : nat) (l : list nat) :
  x ∈ List.filter (fun y => negb (Nat.eqb y r)) l <-> x ∈ l /\ x <> r.
Proof.
  rewrite !list_elem_of_In, List.filter_In, negb_true_iff, Nat.eqb_neq. done.
Qed.

Lemma NoDup_removal (r : nat) (l : list nat) :
  NoDup l -> NoDup (List.filter (fun y => negb (Nat.eqb y r)) l).
Proof.
  induction 1 as [|x l Hx Hl IH]; simpl; [constructor |].
  destruct (Nat.eqb x r); simpl; [done |].
  constructor; [| done]. rewrite elem_of_removal. naive_solver.
Qed.

(** [RegisterModule] on a module the registry does not hold. *)
Lemma RegisterModule_absent (m : OrchestratorModuleInterface) (st : Orchestrator) :
  module_ref m ∉ registered_refs st ->
  (RegisterModule m st).1 = true
  /\ registered_refs (RegisterModule m st).2
     = (registered_refs st ++ [module_ref m])%list.
Proof.
  intros Habsent. apply find_module_None in Habsent.
  unfold RegisterModule. rewrite Habsent. simpl. split; [done |].
  unfold registered_refs; simpl. by rewrite fmap_app.
Qed.

(** [RegisterModule] on a reference the registry holds, whatever kind the
    module reports now. *)
Lemma RegisterModule_present (m : OrchestratorModuleInterface) (st : Orchestrator) :
  module_ref m ∈ registered_refs st -> RegisterModule m st = (false, st).
Proof.
  intros Hin. unfold RegisterModule.
  destruct (find_module m (_module_list st)) eqn:Hfind; [done |].
  apply find_module_None in Hfind. done.
Qed.

Lemma UnregisterModule_absent (m : OrchestratorModuleInterface) (st : Orchestrator) :
  module_ref m ∉ registered_refs st -> UnregisterModule m st = (false, st).
Proof.
  intros Habsent. apply find_module_None in Habsent.
  unfold UnregisterModule. by rewrite Habsent.
Qed.

Lemma UnregisterModule_present (m : OrchestratorModuleInterface) (st : Orchestrator) :
  module_ref m ∈ registered_refs st ->
  (UnregisterModule m st).1 = true
  /\ registered_refs (UnregisterModule m st).2
     = List.filter (fun x => negb (Nat.eqb x (module_ref m))) (registered_refs st).
Proof.
  intros Hin. unfold UnregisterModule.
  destruct (find_module m (_module_list st)) eqn:Hfind.
  - simpl. split; [done |]. unfold registered_refs; simpl.
    apply (refs_after_removal (module_ref m)).
  - apply find_module_None in Hfind. done.
Qed.

(** One call keeps the references free of duplicates and moves them as the
    set operation of the call moves a set. *)
Lemma run_registry_call_step (c : RegistryCall) (st : Orchestrator) (s : gset nat) :
  NoDup (registered_refs st) ->
  (forall r, r ∈ registered_refs st <-> r ∈ s) ->
  let st' := (run_registry_call c st).2 in
  NoDup (registered_refs st')
  /\ forall r, r ∈ registered_refs st'
               <-> r ∈ match c with
                       | CallRegister m => s ∪ {[module_ref m]}
                       | CallUnregister m => s ∖ {[module_ref m]}
                       end.
Proof.
  intros Hnodup Hset. destruct c as [m | m]; simpl.
  - destruct (decide (module_ref m ∈ registered_refs st)) as [Hin | Hout].
    + rewrite (RegisterModule_present m st Hin). simpl. split; [done |].
      intros r. rewrite Hset. apply Hset in Hin. set_solver.
    + destruct (RegisterModule_absent m st Hout) as [_ ->]. split.
      * apply list.NoDup_app. split; [done |]. split; [| apply NoDup_singleton].
        intros x Hx Hx'. apply list_elem_of_singleton in Hx'. by subst x.
      * intros r. rewrite elem_of_app, list_elem_of_singleton, Hset. set_solver.
  - destruct (decide (module_ref m ∈ registered_refs st)) as [Hin | Hout].
    + destruct (UnregisterModule_present m st Hin) as [_ ->]. split.
      * by apply NoDup_removal.
      * intros r. rewrite elem_of_removal, Hset. set_solver.
    + rewrite (UnregisterModule_absent m st Hout). simpl. split; [done |].
      intros r. rewrite elem_of_difference, <- Hset, elem_of_singleton.
      split; [| by intros [? _]].
      intros Hr. split; [done |]. by intros ->.
Qed.

Lemma run_registry_calls_invariant (calls : list RegistryCall) (st : Orchestrator)
  (s : gset nat) :
  NoDup (registered_refs st) ->
  (forall r, r ∈ registered_refs st <-> r ∈ s) ->
  let st' := (run_registry_calls calls st).2 in
  NoDup (registered_refs st')
  /\ forall r, r ∈ registered_refs st'
               <-> r ∈ foldl (fun s c =>
                               match c with
                               | CallRegister m => s ∪ {[module_ref m]}
                               | CallUnregister m => s ∖ {[module_ref m]}
                               end) s calls.
Proof.
  revert st s. induction calls as [|c calls IH]; intros st s Hnodup Hset; simpl.
  - done.
  - destruct (run_registry_call_step c st s Hnodup Hset) as [Hnodup' Hset'].
    unfold mbind, state_bind.
    destruct (run_registry_call c st) as [b st1] eqn:Hcall. simpl in *.
    specialize (IH st1 _ Hnodup' Hset').
    destruct (run_registry_calls calls st1) as [bs st2]. simpl in *. done.
Qed.

(** The flat list after any sequence of calls on a new Orchestrator, and
    what each call answers and does to the list. *)
Lemma registry_flat_list
  (calls : list RegistryCall) (MinApplicationId : info.application_id_t) :
  let final := (run_registry_calls calls (Orchestrator_new MinApplicationId)).2 in
  NoDup (registered_refs final)
  /\ (forall r, r ∈ registered_refs final <-> r ∈ registered_minus_unregistered calls)
  /\ (forall (st : Orchestrator) (m : OrchestratorModuleInterface),
        (module_ref m ∉ registered_refs st ->
         (RegisterModule m st).1 = true
         /\ registered_refs (RegisterModule m st).2
            = (registered_refs st ++ [module_ref m])%list)
        /\ (module_ref m ∈ registered_refs st -> RegisterModule m st = (false, st))
        /\ (module_ref m ∉ registered_refs st -> UnregisterModule m st = (false, st))
        /\ (module_ref m ∈ registered_refs st ->
            (UnregisterModule m st).1 = true
            /\ module_ref m ∉ registered_refs (UnregisterModule m st).2)).
Proof.
  intros final. subst final.
  destruct (run_registry_calls_invariant calls (Orchestrator_new MinApplicationId) ∅)
    as [Hnodup Hset].
  { constructor. }
  { intros r. unfold registered_refs; simpl. set_solver. }
  split; [done |]. split; [done |].
  intros st m. repeat split.
  - by apply RegisterModule_absent.
  - by apply RegisterModule_absent.
  - apply RegisterModule_present.
  - apply UnregisterModule_absent.
  - by apply UnregisterModule_present.
  - destruct (UnregisterModule_present m st) as [_ ->]; [done |].
    rewrite elem_of_removal. naive_solver.
Qed.

End Registry.

(** *** The per-kind grouping *)

Lemma filter_filter_comm {A : Type} (p q : A -> bool) (l : list A) :
  List.filter p (List.filter q l) = List.filter q (List.filter p l).
Proof.
  induction l as [|x l IH]; [done |]. simpl.
  destruct (p x) eqn:Hp, (q x) eqn:Hq; simpl; rewrite ?Hp, ?Hq, IH; done.
Qed.

Lemma filter_filter_absorb {A : Type} (p q : A -> bool) (l : list A) :
  (forall x, x ∈ l -> q x = true -> p x = true) ->
  List.filter q (List.filter p l) = List.filter q l.
Proof.
  induction l as [|x l IH]; intros Himp; [done |]. simpl.
  assert (Hrest : forall y, y ∈ l -> q y = true -> p y = true).
  { intros y Hy. apply Himp. by apply list_elem_of_further. }
  destruct (q x) eqn:Hq.
  - rewrite (Himp x) by (done || apply list_elem_of_here). simpl.
    by rewrite Hq, (IH Hrest).
  - destruct (p x); simpl; rewrite ?Hq; by apply IH.
Qed.

Lemma filter_modules (keep : OrchestratorModuleInterface -> bool) (l : list Module) :
  List.filter keep (module <$> l) = module <$> List.filter (fun e => keep (module e)) l.
Proof.
  induction l as [|e l IH]; [done |]. rewrite fmap_cons. cbn [List.filter].
  destruct (keep (module e)); rewrite ?fmap_cons, IH; done.
Qed.

Lemma entry_ref_inj (l : list Module) (e e' : Module) :
  NoDup (entry_ref <$> l) -> e ∈ l -> e' ∈ l -> entry_ref e = entry_ref e' -> e = e'.
Proof.
  induction l as [|x l IH]; intros Hnodup He He' Href.
  - by apply elem_of_nil in He.
  - rewrite fmap_cons in Hnodup. apply list.NoDup_cons in Hnodup as [Hx Hl].
    apply elem_of_cons in He as [-> | He]; apply elem_of_cons in He' as [-> | He'].
    + done.
    + exfalso. apply Hx. rewrite Href. by apply list_elem_of_fmap_2.
    + exfalso. apply Hx. rewrite <- Href. by apply list_elem_of_fmap_2.
    + by apply IH.
Qed.

Lemma find_module_found (m : OrchestratorModuleInterface) (l : list Module) (e : Module) :
  find_module m l = Some e -> e ∈ l /\ entry_ref e = module_ref m.
Proof.
  unfold find_module, same_module. intros Hfind.
  apply List.find_some in Hfind as [Hin Heq].
  split; [by apply list_elem_of_In | by apply Nat.eqb_eq].
Qed.

Section Grouping.
Context `{StdRegex}.

(** One call keeps the grouping in agreement with the flat list. *)
Lemma run_registry_call_consistent (c : RegistryCall) (st : Orchestrator) :
  NoDup (registered_refs st) ->
  registry_consistent st ->
  registry_consistent (run_registry_call c st).2.
Proof.
  intros Hnodup Hcons. destruct c as [m | m]; simpl.
  - unfold RegisterModule.
    destruct (find_module m (_module_list st)) eqn:Hfind; [done |].
    intros kind. unfold ModulesOfKind; simpl.
    rewrite List.filter_app, fmap_app. simpl.
    destruct (decide (GetModuleType m = kind)) as [<- | Hne].
    + rewrite lookup_insert_eq. simpl.
      rewrite bool_decide_eq_true_2 by done.
      by rewrite <- (Hcons (GetModuleType m)).
    + rewrite lookup_insert_ne by done.
      rewrite bool_decide_eq_false_2 by done.
      rewrite app_nil_r. apply Hcons.
  - unfold UnregisterModule.
    destruct (find_module m (_module_list st)) as [e |] eqn:Hfind; [| done].
    apply find_module_found in Hfind as [He Href].
    intros kind. unfold ModulesOfKind; simpl.
    destruct (decide (type e = kind)) as [<- | Hne].
    + rewrite lookup_alter_eq.
      transitivity (List.filter (fun other => negb (same_module other m))
                      (ModulesOfKind (type e) st)).
      { unfold ModulesOfKind. by destruct (_module_map st !! type e). }
      rewrite (Hcons (type e)), filter_modules. f_equal.
      apply filter_filter_comm.
    + rewrite lookup_alter_ne by done.
      rewrite filter_filter_absorb; [apply Hcons |].
      intros x Hx Hkind. apply bool_decide_eq_true in Hkind.
      apply negb_true_iff, Nat.eqb_neq. intros Hsame.
      apply Hne. rewrite <- Hkind. f_equal.
      apply (entry_ref_inj (_module_list st)); try done.
      unfold entry_ref in *. congruence.
Qed.

(** After any sequence of calls on a new Orchestrator, [ModulesOfKind] lists
    the entries of the flat list that were registered under that kind, in
    registration order. *)
Lemma registry_grouping (calls : list RegistryCall)
  (MinApplicationId : info.application_id_t) :
  registry_consistent (run_registry_calls calls (Orchestrator_new MinApplicationId)).2.
Proof.
  assert (Hgen : forall st,
             NoDup (registered_refs st) -> registry_consistent st ->
             registry_consistent (run_registry_calls calls st).2).
  { induction calls as [|c calls IH]; intros st Hnodup Hcons; [done |].
    simpl. unfold mbind, state_bind.
    pose proof (run_registry_call_consistent c st Hnodup Hcons) as Hcons'.
    destruct (run_registry_call_step c st (list_to_set (registered_refs st)) Hnodup)
      as [Hnodup' _].
    { intros r. by rewrite elem_of_list_to_set. }
    destruct (run_registry_call c st) as [b st1]. simpl in *.
    specialize (IH st1 Hnodup' Hcons').
    by destruct (run_registry_calls calls st1) as [bs st2]. }
  apply Hgen; [constructor |].
  intros kind. unfold ModulesOfKind; simpl. by rewrite lookup_empty.
Qed.

End Grouping.

Section RegistryIndexes.
Context `{StdRegex}.

Lemma NoDup_refs_filter (keep : Module -> bool) (l : list Module) :
  NoDup (entry_ref <$> l) -> NoDup (entry_ref <$> List.filter keep l).
Proof.
  induction l as [|e l IH]; intros Hnodup; [done |].
  rewrite fmap_cons in Hnodup. apply list.NoDup_cons in Hnodup as [He Hl].
  cbn [List.filter]. destruct (keep e); [| by apply IH].
  rewrite fmap_cons. apply list.NoDup_cons. split; [| by apply IH].
  intros Hin. apply He.
  apply list_elem_of_fmap in Hin as (e' & -> & Hin).
  apply list_elem_of_In, List.filter_In in Hin as [Hin _].
  apply list_elem_of_fmap_2. by apply list_elem_of_In.
Qed.

(** The members of a group are the modules of the entries of that kind. *)
Lemma group_member (st : Orchestrator) (kind : OrchestratorModuleType)
  (m : OrchestratorModuleInterface) :
  registry_consistent st ->
  m ∈ ModulesOfKind kind st
  <-> exists e, e ∈ _module_list st /\ type e = kind /\ module e = m.
Proof.
  intros Hcons. rewrite (Hcons kind), list_elem_of_fmap. split.
  - intros (e & -> & Hin).
    apply list_elem_of_In, List.filter_In in Hin as [Hin Hkind].
    exists e. repeat split; [by apply list_elem_of_In |].
    by apply bool_decide_eq_true in Hkind.
  - intros (e & Hin & Hkind & <-). exists e. split; [done |].
    apply list_elem_of_In, List.filter_In. split; [by apply list_elem_of_In |].
    by apply bool_decide_eq_true.
Qed.

(** One call keeps the recorded kinds in step with the modules. *)
Lemma run_registry_call_typed (c : RegistryCall) (st : Orchestrator) :
  registry_typed st -> registry_typed (run_registry_call c st).2.
Proof.
  unfold registry_typed. intros Htyped. destruct c as [m | m]; simpl.
  - unfold RegisterModule. destruct (find_module m (_module_list st)); [done |].
    simpl. apply Forall_app. split; [done |]. by constructor.
  - unfold UnregisterModule. destruct (find_module m (_module_list st)); [| done].
    simpl. rewrite Forall_forall in Htyped |- *.
    intros e Hin. apply List.filter_In in Hin as [Hin _]. by apply Htyped.
Qed.

Lemma registry_typed_final (calls : list RegistryCall)
  (MinApplicationId : info.application_id_t) :
  registry_typed (run_registry_calls calls (Orchestrator_new MinApplicationId)).2.
Proof.
  assert (Hgen : forall st, registry_typed st ->
                            registry_typed (run_registry_calls calls st).2).
  { induction calls as [|c calls IH]; intros st Htyped; [done |].
    simpl. unfold mbind, state_bind.
    pose proof (run_registry_call_typed c st Htyped) as Htyped'.
    destruct (run_registry_call c st) as [b st1]. simpl in *.
    specialize (IH st1 Htyped').
    by destruct (run_registry_calls calls st1) as [bs st2]. }
  apply Hgen. constructor.
Qed.

(** What [RegisterModule] does to the groups when the module is absent: the
    module goes to the end of the group of its kind, the other groups stay. *)
Lemma RegisterModule_absent_groups (m : OrchestratorModuleInterface) (st : Orchestrator) :
  module_ref m ∉ registered_refs st ->
  ModulesOfKind (GetModuleType m) (RegisterModule m st).2
  = (ModulesOfKind (GetModuleType m) st ++ [m])%list
  /\ forall kind, kind <> GetModuleType m ->
       ModulesOfKind kind (RegisterModule m st).2 = ModulesOfKind kind st.
Proof.
  intros Habsent. apply find_module_None in Habsent.
  unfold RegisterModule. rewrite Habsent. unfold ModulesOfKind; simpl. split.
  - by rewrite lookup_insert_eq.
  - intros kind Hne. by rewrite lookup_insert_ne.
Qed.

(** After [UnregisterModule] no group holds the reference any more. *)
Lemma UnregisterModule_present_groups (m : OrchestratorModuleInterface)
  (st : Orchestrator) :
  NoDup (registered_refs st) -> registry_consistent st ->
  module_ref m ∈ registered_refs st ->
  forall kind m', m' ∈ ModulesOfKind kind (UnregisterModule m st).2 ->
                  module_ref m' <> module_ref m.
Proof.
  intros Hnodup Hcons Hin kind m' Hm'.
  pose proof (run_registry_call_consistent (CallUnregister m) st Hnodup Hcons)
    as Hcons'. simpl in Hcons'.
  apply (group_member _ _ _ Hcons') in Hm' as (e & He & _ & <-).
  assert (Href : entry_ref e ∈ registered_refs (UnregisterModule m st).2).
  { by apply list_elem_of_fmap_2. }
  destruct (UnregisterModule_present m st Hin) as [_ Hrefs].
  rewrite Hrefs, elem_of_removal in Href. by destruct Href.
Qed.

(** C4: after any sequence of [RegisterModule] and [UnregisterModule] calls
    on a new Orchestrator, the registry holds exactly the references
    registered and not unregistered since, none of them twice, in both of its
    indexes: the flat list has no duplicate and holds that set; the group of
    each kind is the part of the flat list registered under that kind, in
    registration order, so it has no duplicate, all its modules report that
    kind and are in the set, every reference of the set is in the group of
    its kind, and no reference is in two groups.  [RegisterModule] returns
    true and appends a module that is absent, to the list and to the group of
    its kind only; it returns false, and changes nothing, when the reference
    is present, whatever kind the module reports; [UnregisterModule] returns
    false, and changes nothing, when the reference is absent, and otherwise
    returns true and removes it from the list and from every group. *)
Theorem registry_is_registered_minus_unregistered
  (calls : list RegistryCall) (MinApplicationId : info.application_id_t) :
  let final := (run_registry_calls calls (Orchestrator_new MinApplicationId)).2 in
  NoDup (registered_refs final)
  /\ (forall r, r ∈ registered_refs final <-> r ∈ registered_minus_unregistered calls)
  /\ (forall kind,
        ModulesOfKind kind final
        = module <$> List.filter (fun e => bool_decide (type e = kind))
                                 (_module_list final))
  /\ (forall kind, NoDup (module_ref <$> ModulesOfKind kind final))
  /\ (forall kind m, m ∈ ModulesOfKind kind final ->
        GetModuleType m = kind
        /\ module_ref m ∈ registered_minus_unregistered calls)
  /\ (forall r, r ∈ registered_minus_unregistered calls ->
        exists m, m ∈ ModulesOfKind (GetModuleType m) final /\ module_ref m = r)
  /\ (forall kind kind' m m',
        m ∈ ModulesOfKind kind final -> m' ∈ ModulesOfKind kind' final ->
        module_ref m = module_ref m' -> kind = kind')
  /\ (forall (st : Orchestrator) (m : OrchestratorModuleInterface),
        (module_ref m ∉ registered_refs st ->
         (RegisterModule m st).1 = true
         /\ registered_refs (RegisterModule m st).2
            = (registered_refs st ++ [module_ref m])%list
         /\ ModulesOfKind (GetModuleType m) (RegisterModule m st).2
            = (ModulesOfKind (GetModuleType m) st ++ [m])%list
         /\ forall kind, kind <> GetModuleType m ->
              ModulesOfKind kind (RegisterModule m st).2 = ModulesOfKind kind st)
        /\ (module_ref m ∈ registered_refs st -> RegisterModule m st = (false, st))
        /\ (module_ref m ∉ registered_refs st -> UnregisterModule m st = (false, st))
        /\ (module_ref m ∈ registered_refs st ->
            (UnregisterModule m st).1 = true
            /\ module_ref m ∉ registered_refs (UnregisterModule m st).2)
        /\ (NoDup (registered_refs st) -> registry_consistent st ->
            module_ref m ∈ registered_refs st ->
            forall kind m', m' ∈ ModulesOfKind kind (UnregisterModule m st).2 ->
                            module_ref m' <> module_ref m)).
Proof.
  intros final.
  destruct (registry_flat_list calls MinApplicationId) as (Hnodup & Hset & Hcalls).
  fold final in Hnodup, Hset.
  pose proof (registry_grouping calls MinApplicationId) as Hcons. fold final in Hcons.
  pose proof (registry_typed_final calls MinApplicationId) as Htyped.
  fold final in Htyped. unfold registry_typed in Htyped.
  rewrite Forall_forall in Htyped.
  split; [done |]. split; [done |]. split; [exact Hcons |].
  split; [| split; [| split; [| split]]].
  - intros kind. rewrite (Hcons kind), <- list_fmap_compose.
    by apply (NoDup_refs_filter _ (_module_list final)).
  - intros kind m Hm. apply (group_member _ _ _ Hcons) in Hm as (e & He & <- & <-).
    split; [symmetry; by apply Htyped, list_elem_of_In |].
    apply Hset. by apply (list_elem_of_fmap_2 entry_ref).
  - intros r Hr. apply Hset in Hr.
    apply list_elem_of_fmap in Hr as (e & -> & He).
    exists (module e). split; [| done].
    apply (group_member _ _ _ Hcons). exists e.
    split; [done |]. split; [| done]. by apply Htyped, list_elem_of_In.
  - intros kind kind' m m' Hm Hm' Href.
    apply (group_member _ _ _ Hcons) in Hm as (e & He & <- & <-).
    apply (group_member _ _ _ Hcons) in Hm' as (e' & He' & <- & <-).
    f_equal. by apply (entry_ref_inj (_module_list final)).
  - intros st m. destruct (Hcalls st m) as (Hra & Hrp & Hua & Hup).
    split; [| split; [done | split; [done | split; [done |]]]].
    + intros Habsent. destruct (Hra Habsent) as [? ?].
      destruct (RegisterModule_absent_groups m st Habsent) as [? ?]. done.
    + by apply UnregisterModule_present_groups.
Qed.

End RegistryIndexes.

(** ** Creating an application *)

(** The fan-out either goes through the whole list, or stops at the first
    module that answers false, with the modules before it collected in
    reverse. *)
Lemma create_fanout_spec (modules : list OrchestratorModuleInterface)
  (app : info.Application) (created : list OrchestratorModuleInterface) :
  (Forall (fun m => OnCreateApplication m app = true) modules
   /\ create_fanout modules app created
      = (true, (reverse modules ++ created)%list, created_calls modules app))
  \/ (exists before failing after,
        modules = (before ++ failing :: after)%list
        /\ Forall (fun m => OnCreateApplication m app = true) before
        /\ OnCreateApplication failing app = false
        /\ create_fanout modules app created
           = (false, (reverse before ++ created)%list,
              (created_calls before app
               ++ [CreateCall (module_ref failing) app false])%list)).
Proof.
  revert created. induction modules as [|m rest IH]; intros created.
  - left. by split.
  - simpl. destruct (OnCreateApplication m app) eqn:Hm.
    + destruct (IH (m :: created))
        as [[Hall ->] | (before & failing & after & -> & Hall & Hfail & ->)].
      * left. split; [by constructor |].
        by rewrite reverse_cons, <- List.app_assoc.
      * right. exists (m :: before), failing, after.
        repeat split; try done; [by constructor |].
        by rewrite reverse_cons, <- List.app_assoc.
    + right. exists [], m, rest. by repeat split.
Qed.

Lemma holders_after_created (app : info.Application)
  (modules : list OrchestratorModuleInterface) (held : gset nat) :
  foldl (holders_step (info.GetId app)) held (created_calls modules app)
  = held ∪ list_to_set (module_ref <$> modules).
Proof.
  revert held. induction modules as [|m rest IH]; intros held.
  - simpl. set_solver.
  - unfold created_calls. rewrite !fmap_cons. cbn [foldl holders_step].
    rewrite decide_True by done. fold (created_calls rest app).
    rewrite IH. set_solver.
Qed.

Lemma holders_after_rollback (app : info.Application)
  (modules : list OrchestratorModuleInterface) (held : gset nat) :
  foldl (holders_step (info.GetId app)) held (rollback modules app)
  = held ∖ list_to_set (module_ref <$> modules).
Proof.
  revert held. induction modules as [|m rest IH]; intros held.
  - simpl. set_solver.
  - unfold rollback. rewrite !fmap_cons. cbn [foldl holders_step].
    rewrite decide_True by done. fold (rollback rest app).
    rewrite IH. set_solver.
Qed.

(** Creates answered true by some modules, one create answered false, and
    deletes on those modules in any order leave no holder. *)
Lemma no_holder_after_rollback (app : info.Application)
  (before : list OrchestratorModuleInterface) (failing : OrchestratorModuleInterface) :
  holders (info.GetId app)
    (created_calls before app ++ [CreateCall (module_ref failing) app false]
     ++ rollback (reverse before) app)%list = ∅.
Proof.
  unfold holders. rewrite !foldl_app. cbn [foldl holders_step].
  rewrite holders_after_created, holders_after_rollback.
  apply set_eq. intros r.
  rewrite elem_of_difference, elem_of_union, !elem_of_list_to_set.
  rewrite fmap_reverse, elem_of_reverse. set_solver.
Qed.

Section CreateApplication.
Context `{StdRegex}.

(** C1: when the virtual host is known, has no application of that name, and
    some module of the create fan-out answers false to [OnCreateApplication],
    [CreateApplication] returns [Failed]; the calls it made are the creates
    up to the first module that refused, then [OnDeleteApplication] on the
    modules that had created, in reverse order; after these calls no module
    holds the application, and neither the virtual hosts (their [app_map]s
    included) nor the registry have changed. *)
Theorem CreateApplication_failure_rolls_back (st : Orchestrator)
  (vhost_info : info.Host) (app_config : cfg.Application) (vh : VirtualHost) :
  _virtual_host_map st !! info.GetHostName vhost_info = Some vh ->
  VirtualHost_has_app vh
    (ResolveApplicationName (info.GetHostName vhost_info) (cfg.GetName app_config))
  = false ->
  (exists m, m ∈ create_order st
             /\ OnCreateApplication m (next_application st vhost_info app_config) = false) ->
  let app := next_application st vhost_info app_config in
  let outcome := CreateApplication vhost_info app_config st in
  exists before failing after,
    create_order st = (before ++ failing :: after)%list
    /\ Forall (fun m => OnCreateApplication m app = true) before
    /\ OnCreateApplication failing app = false
    /\ outcome.1.1 = Failed
    /\ outcome.1.2
       = (created_calls before app ++ [CreateCall (module_ref failing) app false]
          ++ rollback (reverse before) app)%list
    /\ holders (info.GetId app) outcome.1.2 = ∅
    /\ size (holders (info.GetId app) outcome.1.2) = 0
    /\ _virtual_host_map outcome.2 = _virtual_host_map st
    /\ _module_list outcome.2 = _module_list st
    /\ _module_map outcome.2 = _module_map st.
Proof.
  intros Hvh Hnew (m & Hin & Hrefuse) app outcome.
  subst outcome. unfold CreateApplication. rewrite Hvh, Hnew.
  cbn [GetNextAppId].
  change (create_order _) with (create_order st).
  fold (next_application st vhost_info app_config). fold app.
  destruct (create_fanout_spec (create_order st) app [])
    as [[Hall _] | (before & failing & after & Horder & Hall & Hfail & ->)].
  - exfalso. rewrite Forall_forall in Hall.
    apply list_elem_of_In, Hall in Hin. fold app in Hrefuse. congruence.
  - exists before, failing, after.
    cbn [fst snd _virtual_host_map _module_list _module_map].
    rewrite app_nil_r, <- List.app_assoc.
    repeat split; try done.
    + apply no_holder_after_rollback.
    + by rewrite no_holder_after_rollback.
Qed.

End CreateApplication.

Lemma CreateApplication_failure_rolls_back_witness :
  let outcome :=
    CreateApplication sample_host {| cfg.GetName := "live" |} sample_orchestrator in
  outcome.1.1 = Failed
  /\ holders 1%N outcome.1.2 = ∅
  /\ _virtual_host_map outcome.2 = _virtual_host_map sample_orchestrator.
Proof.
  destruct (@CreateApplication_failure_rolls_back literal_engine
              sample_orchestrator sample_host {| cfg.GetName := "live" |}
              (VirtualHost_new sample_host))
    as (before & failing & after & _ & _ & _ & Hres & _ & Hheld & _ & Hmap & _).
  - reflexivity.
  - reflexivity.
  - exists sample_refusing_publisher. split; [| reflexivity].
    vm_compute. apply list_elem_of_In. simpl. auto.
  - split; [exact Hres |]. split; [exact Hheld | exact Hmap].
Defined.

(** Scenario S3: the MediaRouter and the first Publisher are sent
    [OnCreateApplication] and then, the second Publisher having refused,
    [OnDeleteApplication], the Publisher first. *)
Example CreateApplication_scenario_S3 :
  let app := {| info.GetId := 1%N; info.GetAppName := "h1#live";
                info.GetConfig := {| cfg.GetName := "live" |} |} in
  (CreateApplication sample_host {| cfg.GetName := "live" |} sample_orchestrator).1
  = (Failed, [CreateCall 1 app true; CreateCall 2 app true; CreateCall 3 app false;
              DeleteCall 2 app true; DeleteCall 1 app true]).
Proof. vm_compute. reflexivity. Qed.

(** * Further properties of the header *)

(** ** Marking, continued *)

Section MarkItemsMore.
Context {A : Type} (get : A -> ItemState) (set : ItemState -> A -> A).
Hypothesis set_set : forall s s' a, set s (set s' a) = set s a.
Hypothesis set_get : forall a, set (get a) a = a.

Lemma set_after_set (s s' : ItemState) (items : list A) :
  set s <$> (set s' <$> items) = set s <$> items.
Proof.
  induction items as [|a items IH]; [done |].
  rewrite !fmap_cons, set_set, IH. done.
Qed.

(** Whatever a loop of [MarkAllAs] wrote is overwritten by a later write of
    every item. *)
Lemma set_after_mark_items (expected state s : ItemState) (items : list A) :
  set s <$> (mark_items get set expected state items).2 = set s <$> items.
Proof.
  induction items as [|a items IH]; [done |]. cbn [mark_items].
  case_decide; [done |].
  destruct (mark_items get set expected state items) as [finished rest].
  cbn [snd] in *. by rewrite !fmap_cons, set_set, IH.
Qed.

(** A loop that writes the state it expects changes nothing. *)
Lemma mark_items_same_state (state : ItemState) (items : list A) :
  (mark_items get set state state items).2 = items.
Proof.
  induction items as [|a items IH]; [done |]. simpl.
  case_decide as Hget; [done |].
  destruct (mark_items get set state state items) as [finished rest].
  simpl in *. rewrite IH. f_equal.
  destruct (decide (get a = state)) as [<- | Hne]; [apply set_get | done].
Qed.

Lemma mark_items_length (expected state : ItemState) (items : list A) :
  length (mark_items get set expected state items).2 = length items.
Proof.
  induction items as [|a items IH]; [done |]. simpl.
  case_decide; [done |].
  destruct (mark_items get set expected state items) as [finished rest].
  simpl in *. by rewrite IH.
Qed.

End MarkItemsMore.

Section MarkAllAsMore.
Context `{StdRegex}.

Lemma Domain_set_set (s s' : ItemState) (d : Domain) :
  Domain_set_state s (Domain_set_state s' d) = Domain_set_state s d.
Proof. reflexivity. Qed.

Lemma Origin_set_set (s s' : ItemState) (o : Origin) :
  Origin_set_state s (Origin_set_state s' o) = Origin_set_state s o.
Proof. reflexivity. Qed.

Lemma Domain_set_get (d : Domain) : Domain_set_state (domain_state d) d = d.
Proof. by destruct d. Qed.

Lemma Origin_set_get (o : Origin) : Origin_set_state (origin_state o) o = o.
Proof. by destruct o. Qed.

Lemma MarkAllAs_after_MarkAllAs (s s' : ItemState) (vh : VirtualHost) :
  VirtualHost_MarkAllAs s (VirtualHost_MarkAllAs s' vh) = VirtualHost_MarkAllAs s vh.
Proof.
  unfold VirtualHost_MarkAllAs, VirtualHost_with; simpl.
  rewrite (set_after_set Domain_set_state Domain_set_set).
  rewrite (set_after_set Origin_set_state Origin_set_set). done.
Qed.

(** [MarkAllAs(state)] writes every state of the tree, and the last write
    wins: marking twice is marking with the second state, so marking is
    idempotent. *)
Theorem MarkAllAs_last_write_wins (s s' : ItemState) (vh : VirtualHost) :
  VirtualHost_MarkAllAs s (VirtualHost_MarkAllAs s' vh) = VirtualHost_MarkAllAs s vh
  /\ VirtualHost_MarkAllAs s (VirtualHost_MarkAllAs s vh) = VirtualHost_MarkAllAs s vh
  /\ VirtualHost_states (VirtualHost_MarkAllAs s vh)
     = replicate (length (VirtualHost_states vh)) s.
Proof.
  split; [apply MarkAllAs_after_MarkAllAs |].
  split; [apply MarkAllAs_after_MarkAllAs | apply MarkAllAs_states].
Qed.

(** When [MarkAllAs(expected_old_state, state)] returns true, the tree it
    leaves is the one [MarkAllAs(state)] builds; and it does return true on a
    tree that [MarkAllAs(expected_old_state)] has just marked. *)
Theorem MarkAllAs_expected_agrees_with_MarkAllAs
  (expected state : ItemState) (vh : VirtualHost) :
  ((VirtualHost_MarkAllAs_expected expected state vh).1 = true ->
   (VirtualHost_MarkAllAs_expected expected state vh).2
   = VirtualHost_MarkAllAs state vh)
  /\ VirtualHost_MarkAllAs_expected expected state (VirtualHost_MarkAllAs expected vh)
     = (true, VirtualHost_MarkAllAs state vh).
Proof.
  split.
  - destruct (MarkAllAs_expected_outcome expected state vh)
      as [[_ ->] | (? & ? & ? & _ & _ & _ & Hfalse & _)]; [done |].
    rewrite Hfalse. done.
  - destruct (MarkAllAs_expected_outcome expected state
                (VirtualHost_MarkAllAs expected vh))
      as [[_ ->] | (before & x & after & Hst & _ & Hx & _)].
    + by rewrite MarkAllAs_after_MarkAllAs.
    + exfalso. rewrite MarkAllAs_states in Hst.
      assert (Hin : x ∈ replicate (length (VirtualHost_states vh)) expected).
      { rewrite Hst. apply elem_of_app. right. apply list_elem_of_here. }
      apply elem_of_replicate in Hin as [? _]. done.
Qed.

(** [MarkAllAs(expected_old_state, state)] writes states and nothing else,
    whatever it returns: the host information, the name and the applications
    are kept, the two lists keep their lengths, and a later [MarkAllAs(s)]
    gives the tree it would have given without the call. *)
Theorem MarkAllAs_expected_writes_states_only
  (expected state s : ItemState) (vh : VirtualHost) :
  let result := VirtualHost_MarkAllAs_expected expected state vh in
  host_info result.2 = host_info vh
  /\ vhost_name result.2 = vhost_name vh
  /\ app_map result.2 = app_map vh
  /\ length (domain_list result.2) = length (domain_list vh)
  /\ length (origin_list result.2) = length (origin_list vh)
  /\ VirtualHost_MarkAllAs s result.2 = VirtualHost_MarkAllAs s vh.
Proof.
  unfold VirtualHost_MarkAllAs_expected.
  case_decide as Hvh; [done |].
  pose proof (set_after_mark_items domain_state Domain_set_state Domain_set_set
                expected state s (domain_list vh)) as Hd.
  pose proof (mark_items_length domain_state Domain_set_state
                expected state (domain_list vh)) as Hdl.
  destruct (mark_items domain_state Domain_set_state expected state (domain_list vh))
    as [finished domains]. simpl in Hd, Hdl.
  destruct finished; simpl.
  - pose proof (set_after_mark_items origin_state Origin_set_state Origin_set_set
                  expected state s (origin_list vh)) as Ho.
    pose proof (mark_items_length origin_state Origin_set_state
                  expected state (origin_list vh)) as Hol.
    destruct (mark_items origin_state Origin_set_state expected state (origin_list vh))
      as [finished origins]. simpl in Ho, Hol.
    repeat split; try done.
    unfold VirtualHost_MarkAllAs, VirtualHost_with; simpl. by rewrite Hd, Ho.
  - repeat split; try done.
    unfold VirtualHost_MarkAllAs, VirtualHost_with; simpl. by rewrite Hd.
Qed.

(** When the new state is the expected one, [MarkAllAs(state, state)] is a
    test only: it leaves the tree as it was, whether it returns true or
    false. *)
Theorem MarkAllAs_expected_same_state (state : ItemState) (vh : VirtualHost) :
  (VirtualHost_MarkAllAs_expected state state vh).2 = vh.
Proof.
  unfold VirtualHost_MarkAllAs_expected.
  case_decide as Hvh; [done |].
  assert (Hstate : vhost_state vh = state).
  { by destruct (decide (vhost_state vh = state)). }
  pose proof (mark_items_same_state domain_state Domain_set_state Domain_set_get
                state (domain_list vh)) as Hd.
  destruct (mark_items domain_state Domain_set_state state state (domain_list vh))
    as [finished domains]. simpl in Hd. subst domains.
  destruct finished; simpl.
  - pose proof (mark_items_same_state origin_state Origin_set_state Origin_set_get
                  state (origin_list vh)) as Ho.
    destruct (mark_items origin_state Origin_set_state state state (origin_list vh))
      as [finished origins]. simpl in Ho. subst origins. simpl.
    destruct vh; simpl in *. by subst.
  - destruct vh; simpl in *. by subst.
Qed.

(** After [MarkAllAs(state)] every domain and every origin of the host
    answers [IsValid] alike: true unless the state written is [Unknown]. *)
Theorem IsValid_after_MarkAllAs (state : ItemState) (vh : VirtualHost) :
  Forall (fun d => Domain_IsValid d = bool_decide (state <> Unknown))
         (domain_list (VirtualHost_MarkAllAs state vh))
  /\ Forall (fun o => Origin_IsValid o = bool_decide (state <> Unknown))
            (origin_list (VirtualHost_MarkAllAs state vh)).
Proof.
  unfold VirtualHost_MarkAllAs; simpl.
  split; apply Forall_fmap, Forall_forall; done.
Qed.

End MarkAllAsMore.

(** ** Domains, continued *)

Section UpdateRegexMore.
Context `{StdRegex}.

(** [UpdateRegex] returns true exactly when the pattern of the name compiles;
    it writes [regex_for_domain] and nothing else, and calling it again gives
    the same answer and the same domain. *)
Theorem UpdateRegex_frame_and_idempotence (d : Domain) :
  let result := Domain_UpdateRegex d in
  (result.1 = true <-> is_Some (regex_compile (Domain_pattern (name d))))
  /\ name result.2 = name d
  /\ domain_state result.2 = domain_state d
  /\ domain_stream_map result.2 = domain_stream_map d
  /\ Domain_UpdateRegex result.2 = result.
Proof.
  unfold Domain_UpdateRegex.
  destruct (regex_compile (Domain_pattern (name d))) as [r |] eqn:Hc; simpl.
  - rewrite Hc. repeat split; first [done | by exists r].
  - rewrite Hc. repeat split; first [done | by intros [? ?]].
Qed.

(** When the pattern of the name compiles to [r], [UpdateRegex] returns true
    and installs [r], and a domain constructed with that name matches a host
    name exactly when [r] does. *)
Theorem Domain_valid_pattern (n : string) (r : regex) :
  regex_compile (Domain_pattern n) = Some r ->
  (forall d : Domain, name d = n ->
     (Domain_UpdateRegex d).1 = true
     /\ regex_for_domain (Domain_UpdateRegex d).2 = Some r)
  /\ forall host : string, Domain_matches (Domain_new n) host = regex_match r host.
Proof.
  intros Hc. split.
  - intros d <-. unfold Domain_UpdateRegex. by rewrite Hc.
  - intros host. unfold Domain_new, Domain_UpdateRegex, Domain_matches; simpl.
    by rewrite Hc.
Qed.

(** When the pattern of the name does not compile, [UpdateRegex] keeps the
    matcher the domain had: a domain whose [name] was changed to such a name
    goes on matching what it matched before. *)
Theorem UpdateRegex_failure_keeps_matcher (d : Domain) :
  regex_compile (Domain_pattern (name d)) = None ->
  regex_for_domain (Domain_UpdateRegex d).2 = regex_for_domain d
  /\ forall host : string,
       Domain_matches (Domain_UpdateRegex d).2 host = Domain_matches d host.
Proof.
  intros Hc. unfold Domain_UpdateRegex. by rewrite Hc.
Qed.

End UpdateRegexMore.

Lemma Domain_valid_pattern_witness :
  @Domain_matches literal_engine (Domain_new "*.example.com") "a.example.com" = true
  /\ @Domain_matches literal_engine (Domain_new "*.example.com") "other.org" = false.
Proof.
  edestruct (@Domain_valid_pattern literal_engine "*.example.com") as [_ Hmatch];
    [vm_compute; reflexivity |].
  rewrite !Hmatch. split; vm_compute; reflexivity.
Defined.

Lemma UpdateRegex_failure_keeps_matcher_witness :
  (Domain_UpdateRegex sample_renamed_domain).1 = false
  /\ Domain_matches (Domain_UpdateRegex sample_renamed_domain).2 "a" = true.
Proof.
  split; [reflexivity |].
  destruct (@UpdateRegex_failure_keeps_matcher literal_engine sample_renamed_domain)
    as [_ Hmatch]; [reflexivity |].
  rewrite Hmatch. reflexivity.
Defined.

(** ** Patterns, continued *)

Lemma string_app_inj_r (a b s : string) : a +:+ s = b +:+ s -> a = b.
Proof.
  revert b. induction a as [|c a IH]; intros [|c' b] Heq.
  - done.
  - apply (f_equal String.length) in Heq.
    rewrite string_app_nil_l, string_app_cons in Heq. cbn [String.length] in Heq.
    rewrite string_app_length in Heq. lia.
  - apply (f_equal String.length) in Heq.
    rewrite string_app_nil_l, string_app_cons in Heq. cbn [String.length] in Heq.
    rewrite string_app_length in Heq. lia.
  - rewrite !string_app_cons in Heq. inversion Heq; subst.
    f_equal. by apply IH.
Qed.

Lemma special_backslash_dot (c : ascii) :
  special_characters c = false ->
  Ascii.eqb c "\" = false /\ Ascii.eqb c "." = false.
Proof.
  intros Hsp. split; apply Ascii.eqb_neq; intros ->; by vm_compute in Hsp.
Qed.

(** Reading back the pieces of a name gives the name. *)
Lemma chars_of_pattern_of_chars (s : string) :
  chars_of_pattern (pattern_of_chars s) = s.
Proof.
  induction s as [|c s IH]; [done |].
  cbn [pattern_of_chars]. unfold pattern_of_char.
  destruct (special_characters c) eqn:Hsp.
  - string_app. cbn [chars_of_pattern]. rewrite Ascii.eqb_refl. by rewrite IH.
  - destruct (special_backslash_dot c Hsp) as [Hb Hd].
    destruct (Ascii.eqb_spec c "*") as [-> | Hstar].
    + string_app. cbn [chars_of_pattern]. simpl. by rewrite IH.
    + destruct (Ascii.eqb_spec c "?") as [-> | Hq].
      * string_app. cbn [chars_of_pattern]. simpl. by rewrite IH.
      * string_app.
        destruct (pattern_of_chars s) as [|c' rest] eqn:Hp.
        -- simpl in IH. by subst s.
        -- cbn [chars_of_pattern]. rewrite Hb, Hd. simpl.
           by rewrite <- IH.
Qed.

(** The three passes of [UpdateRegex] over the name (escape, then [*], then
    [?]) amount to one pass that turns each character into its own piece, and
    the result stands between [^] and [$]: a replacement never touches what
    an earlier pass produced. *)
Theorem Domain_pattern_one_pass (name : string) :
  Domain_pattern name = "^" +:+ pattern_of_chars (ov.CStr name) +:+ "$"
  /\ (forall c s, pattern_of_chars (String c s)
                  = pattern_of_char c +:+ pattern_of_chars s)
  /\ (forall c, pattern_of_char c
                = if special_characters c then String "\" (String c "")
                  else if Ascii.eqb c "*" then ".*"
                       else if Ascii.eqb c "?" then ".?" else String c "").
Proof.
  split; [apply Domain_pattern_by_char | by split].
Qed.

(** The pattern determines the name, up to what follows a NUL: two names
    have the same pattern exactly when they are the same C string. *)
Theorem Domain_pattern_injective (a b : string) :
  Domain_pattern a = Domain_pattern b <-> ov.CStr a = ov.CStr b.
Proof.
  rewrite !Domain_pattern_by_char. split.
  - intros Heq. rewrite !string_app_cons, !string_app_nil_l in Heq.
    inversion Heq as [Heq']. apply string_app_inj_r in Heq'.
    apply (f_equal chars_of_pattern) in Heq'.
    by rewrite !chars_of_pattern_of_chars in Heq'.
  - by intros ->.
Qed.

(** Which syntax characters of the pattern language [UpdateRegex] escapes: a
    syntax character of the name other than the wildcards [*] and [?] and
    other than the parentheses and the closing bracket reaches the pattern
    behind a backslash; so does [/]. *)
Theorem escaped_syntax_characters (c : ascii) :
  (regex_syntax_character c = true ->
   c <> "*"%char -> c <> "?"%char ->
   c <> "("%char -> c <> ")"%char -> c <> "]"%char ->
   pattern_of_char c = String "\" (String c ""))
  /\ pattern_of_char "/" = "\/"
  /\ (pattern_of_char c = String c "" -> regex_syntax_character c = true ->
      c = "("%char \/ c = ")"%char \/ c = "]"%char).
Proof.
  split; [| split; [reflexivity | apply unescaped_syntax_characters]].
  unfold regex_syntax_character. intros Hin%bool_decide_eq_true.
  repeat (apply elem_of_cons in Hin as [-> | Hin]; [by intros |]).
  by apply elem_of_nil in Hin.
Qed.

(** * The sample engine on the patterns of domains *)

Lemma not_special_neq (c x : ascii) :
  special_characters c = false -> special_characters x = true ->
  Ascii.eqb c x = false.
Proof. intros Hc Hx. apply Ascii.eqb_neq. intros ->. congruence. Qed.

Lemma special_not_parenthesis (c : ascii) :
  special_characters c = true ->
  Ascii.eqb c "(" = false /\ Ascii.eqb c ")" = false /\ identity_escape c = true.
Proof.
  intros Hsp. unfold identity_escape. rewrite Hsp, orb_true_r.
  repeat split; apply Ascii.eqb_neq; intros ->; by vm_compute in Hsp.
Qed.

(** On the pieces of a name followed by the closing anchor, the parser stops
    without a result exactly when the parentheses are not balanced, whatever
    groups are open and whatever was read before. *)
Lemma parse_pattern_of_chars (s : string) (open : list (list term)) (cur : list term) :
  parse open cur (pattern_of_chars s +:+ "$") = None
  <-> balanced (length open) (pattern_of_chars s +:+ "$") = false.
Proof.
  revert open cur. induction s as [|c s IH]; intros open cur.
  - simpl. destruct open; simpl; split; congruence.
  - cbn [pattern_of_chars]. unfold pattern_of_char.
    destruct (special_characters c) eqn:Hsp.
    + destruct (special_not_parenthesis c Hsp) as (Ho & Hc & Hesc).
      string_app. simpl. rewrite Hesc, Ho, Hc. apply IH.
    + destruct (Ascii.eqb_spec c "*") as [-> | Hstar]; [string_app; simpl; apply IH |].
      destruct (Ascii.eqb_spec c "?") as [-> | Hq]; [string_app; simpl; apply IH |].
      string_app. simpl.
      destruct (Ascii.eqb_spec c "(") as [-> | Hopen]; [apply (IH (cur :: open)) |].
      destruct (Ascii.eqb_spec c ")") as [-> | Hclose].
      { destruct open as [|outer open]; [done | apply IH]. }
      apply Ascii.eqb_neq in Hstar, Hq. rewrite Hstar, Hq.
      rewrite !(not_special_neq c _ Hsp) by reflexivity. simpl. apply IH.
Qed.

(** The sample engine refuses the pattern of a domain name exactly when the
    parentheses of the name are not balanced: every other pattern
    [UpdateRegex] builds is within the engine. *)
Lemma literal_engine_refuses_unbalanced (name : string) :
  @regex_compile literal_engine (Domain_pattern name) = None
  <-> balanced 0 (Domain_pattern name) = false.
Proof.
  rewrite Domain_pattern_by_char. string_app. simpl.
  apply (parse_pattern_of_chars (ov.CStr name) []).
Qed.

(** * Properties of alert messages *)

Lemma enumerator_cases (c : N) :
  (c <= 12)%N ->
  c ∈ [0; 1; 2; 3; 4; 5; 6; 7; 8; 9; 10; 11; 12]%N.
Proof.
  intros Hle.
  assert (Hc : c = N.of_nat (N.to_nat c)) by lia.
  rewrite Hc. assert (Hn : N.to_nat c <= 12) by lia.
  revert Hn. generalize (N.to_nat c). intros n Hn.
  do 13 (destruct n as [|n]; [simpl; set_solver |]). lia.
Qed.

Lemma beyond_enumerators (c : N) :
  (12 < c)%N -> Message.StringFromMessageCode c = "OK".
Proof.
  intros Hlt. destruct c as [|p]; [lia |].
  do 4 (try destruct p as [p | p |]); try reflexivity; lia.
Qed.

(** [StringFromMessageCode] gives each of the thirteen enumerators a name of
    its own, and gives every value beyond them the name of [Code::OK]: the
    answer is ["OK"] exactly for [Code::OK] and for the values that are no
    enumerator. *)
Theorem StringFromMessageCode_names (c c' : Message.Code) :
  ((c <= 12)%N -> (c' <= 12)%N ->
   Message.StringFromMessageCode c = Message.StringFromMessageCode c' -> c = c')
  /\ (Message.StringFromMessageCode c = "OK" <-> c = Message.OK \/ (12 < c)%N).
Proof.
  split.
  - intros Hc Hc'. apply enumerator_cases in Hc, Hc'.
    repeat (apply elem_of_cons in Hc as [-> | Hc]);
      try (by apply elem_of_nil in Hc);
      repeat (apply elem_of_cons in Hc' as [-> | Hc']);
      try (by apply elem_of_nil in Hc');
      intros Heq; first [reflexivity | by vm_compute in Heq].
  - split.
    + intros Hok. destruct (decide (c <= 12)%N) as [Hle | Hgt]; [| right; lia].
      left. apply enumerator_cases in Hle.
      repeat (apply elem_of_cons in Hle as [-> | Hle]);
        try (by apply elem_of_nil in Hle);
        first [reflexivity | by vm_compute in Hok].
    + intros [-> | Hgt]; [reflexivity | by apply beyond_enumerators].
Qed.

(** [DescriptionFromMessageCode] describes a value that is no enumerator as
    it describes [Code::OK], without looking at the two values; the
    description of [INGRESS_HAS_BFRAME] does not depend on them either; every
    other enumerator formats the measured value before the configured one. *)
Theorem DescriptionFromMessageCode_values {T : Type}
  (FormatString : string -> list T -> string) (c : Message.Code)
  (config measured : T) :
  ((12 < c)%N \/ c = Message.OK ->
   Message.DescriptionFromMessageCode FormatString c config measured
   = "The current status is good")
  /\ (forall config' measured' : T,
        Message.DescriptionFromMessageCode FormatString
          Message.INGRESS_HAS_BFRAME config measured
        = Message.DescriptionFromMessageCode FormatString
            Message.INGRESS_HAS_BFRAME config' measured')
  /\ ((1 <= c <= 11)%N ->
      exists format : string,
        forall config' measured' : T,
          Message.DescriptionFromMessageCode FormatString c config' measured'
          = FormatString format [measured'; config']).
Proof.
  split; [| split].
  - intros [Hgt | ->]; [| reflexivity].
    destruct c as [|p]; [lia |].
    do 4 (try destruct p as [p | p |]); try reflexivity; lia.
  - reflexivity.
  - intros Hc. assert (Hle : (c <= 12)%N) by lia.
    apply enumerator_cases in Hle.
    repeat (apply elem_of_cons in Hle as [-> | Hle]);
      try (by apply elem_of_nil in Hle); try lia;
      eexists; intros; reflexivity.
Qed.

(** What [CreateMessage] is given is what [GetCode] and [GetDescription]
    return, also for a code that is no enumerator. *)
Lemma CreateMessage_round_trip (code : Message.Code) (description : string) :
  Message.GetCode (Message.CreateMessage code description) = code
  /\ Message.GetDescription (Message.CreateMessage code description) = description.
Proof. by split. Qed.

(** * Properties of new hosts and of pattern sizes *)

(** A [VirtualHost] leaves its constructor without domains, origins or
    applications: [MarkAllAs(expected_old_state, state)] on it returns true
    exactly when the expected state is [New], and then only the state of the
    host is written; otherwise the host is returned as it was. *)
Theorem MarkAllAs_expected_on_new_host `{StdRegex}
  (expected state : ItemState) (host : info.Host) :
  let result := VirtualHost_MarkAllAs_expected expected state (VirtualHost_new host) in
  (result.1 = true <-> expected = New)
  /\ (expected = New ->
      result.2 = {| host_info := host; vhost_name := ""; domain_list := [];
                    origin_list := []; app_map := ∅; vhost_state := state |})
  /\ (expected <> New -> result.2 = VirtualHost_new host).
Proof.
  unfold VirtualHost_MarkAllAs_expected, VirtualHost_new; simpl.
  case_decide as Hne; simpl.
  - repeat split; try done; try (intros ->; done).
  - assert (Heq : New = expected) by (by destruct (decide (New = expected))).
    subst expected. by repeat split.
Qed.

Lemma pattern_of_chars_length (s : string) :
  String.length s <= String.length (pattern_of_chars s) <= 2 * String.length s.
Proof.
  induction s as [|c s IH]; [simpl; lia |].
  cbn [pattern_of_chars]. rewrite string_app_length.
  assert (Hc : 1 <= String.length (pattern_of_char c) <= 2).
  { unfold pattern_of_char.
    destruct (special_characters c); [simpl; lia |].
    destruct (Ascii.eqb c "*"); [simpl; lia |].
    destruct (Ascii.eqb c "?"); simpl; lia. }
  cbn [String.length]. lia.
Qed.

(** The pattern of a name of [n] bytes (up to the first NUL) has between
    [n + 2] and [2 * n + 2] bytes: the two anchors, and one or two bytes for
    each byte of the name. *)
Theorem Domain_pattern_length (name : string) :
  String.length (ov.CStr name) + 2 <= String.length (Domain_pattern name)
  /\ String.length (Domain_pattern name) <= 2 * String.length (ov.CStr name) + 2
  /\ String.length (ov.CStr name) <= String.length name.
Proof.
  rewrite Domain_pattern_by_char, string_app_cons, string_app_nil_l.
  cbn [String.length]. rewrite string_app_length. cbn [String.length].
  pose proof (pattern_of_chars_length (ov.CStr name)) as Hlen.
  repeat split; try lia.
  clear Hlen. induction name as [|c name IH]; [done |].
  simpl. destruct (Ascii.eqb c zero); simpl; lia.
Qed.
